(** * LivePlayer: the audio session controller

    A shallow embedding of the [LivePlayer] class (player/livePlayer.tsx):
    the session record, the two audio elements, the host's timer table,
    animation-frame queue and pending play promises, and every method and
    listener of the class as a function on that world.

    Conventions.
    - JavaScript numbers holding volumes and times are exact rationals ([Q]);
      counters and millisecond clocks are integers ([Z]).
    - The class never blocks: every listener, timer body and intent runs to
      completion, so each is a total function [World -> World]. The one
      [try]/[catch] of the class, in [init], is a sum: [init_try].
    - DOM events, promise rejections, timer expiry and animation frames are
      inputs of the environment ([Event]); the host dispatches them one at a
      time ([step]), and listeners only run once [init] registered them.
    - Closures handed to [setTimeout] are [Task]s carrying the variables
      they captured. [Tick] lets the pending timer that is due first expire
      (the older one on a tie) and moves the clock there; [Wait] lets time
      pass without a timer running, which the host may always do.
    - [play()] on the live element hands back a promise, as current
      browsers do; it stays pending until the host rejects it.
    - The application constructs the controller and calls [init] once
      ([reachable]).
    - [console] output has no effect on the session and is left out. *)

From Stdlib Require Import ZArith QArith Qminmax Qabs List String Bool Lia.
Import ListNotations.
Open Scope Z_scope.

(** ** Session state *)

Inductive Status :=
| INTRO | LIVE_CONNECTING | LIVE_ON_AIR | LIVE_RECONNECTING | LIVE_UNAVAILABLE.

Definition Status_eqb (a b : Status) : bool :=
  match a, b with
  | INTRO, INTRO | LIVE_CONNECTING, LIVE_CONNECTING | LIVE_ON_AIR, LIVE_ON_AIR
  | LIVE_RECONNECTING, LIVE_RECONNECTING | LIVE_UNAVAILABLE, LIVE_UNAVAILABLE => true
  | _, _ => false
  end.

Record LivePlayerState := mkState {
  status : Status;
  isPlaying : bool;
  volume : Q;
  currentTime : Q;
  duration : Q;
  reconnectAttempts : Z;
  maxReconnectAttempts : Z
}.

(** [Partial<LivePlayerState>]: a field is either named with a value or absent. *)
Record Partial := mkPartial {
  u_status : option Status;
  u_isPlaying : option bool;
  u_volume : option Q;
  u_currentTime : option Q;
  u_duration : option Q;
  u_reconnectAttempts : option Z;
  u_maxReconnectAttempts : option Z
}.

Definition no_updates : Partial := mkPartial None None None None None None None.

Definition with_status (v : Status) (u : Partial) : Partial :=
  mkPartial (Some v) (u_isPlaying u) (u_volume u) (u_currentTime u) (u_duration u)
            (u_reconnectAttempts u) (u_maxReconnectAttempts u).
Definition with_isPlaying (v : bool) (u : Partial) : Partial :=
  mkPartial (u_status u) (Some v) (u_volume u) (u_currentTime u) (u_duration u)
            (u_reconnectAttempts u) (u_maxReconnectAttempts u).
Definition with_volume (v : Q) (u : Partial) : Partial :=
  mkPartial (u_status u) (u_isPlaying u) (Some v) (u_currentTime u) (u_duration u)
            (u_reconnectAttempts u) (u_maxReconnectAttempts u).
Definition with_currentTime (v : Q) (u : Partial) : Partial :=
  mkPartial (u_status u) (u_isPlaying u) (u_volume u) (Some v) (u_duration u)
            (u_reconnectAttempts u) (u_maxReconnectAttempts u).
Definition with_duration (v : Q) (u : Partial) : Partial :=
  mkPartial (u_status u) (u_isPlaying u) (u_volume u) (u_currentTime u) (Some v)
            (u_reconnectAttempts u) (u_maxReconnectAttempts u).
Definition with_reconnectAttempts (v : Z) (u : Partial) : Partial :=
  mkPartial (u_status u) (u_isPlaying u) (u_volume u) (u_currentTime u) (u_duration u)
            (Some v) (u_maxReconnectAttempts u).

(** One property of the spread [{ ...old, ...updates }]. *)
Definition spread {A} (old : A) (named : option A) : A :=
  match named with Some v => v | None => old end.

(** [{ ...this.state, ...updates }] *)
Definition merge (s : LivePlayerState) (u : Partial) : LivePlayerState :=
  mkState (spread (status s) (u_status u))
          (spread (isPlaying s) (u_isPlaying u))
          (spread (volume s) (u_volume u))
          (spread (currentTime s) (u_currentTime u))
          (spread (duration s) (u_duration u))
          (spread (reconnectAttempts s) (u_reconnectAttempts u))
          (spread (maxReconnectAttempts s) (u_maxReconnectAttempts u)).

(** ** Callbacks, as the observer sees them *)

Inductive Callback :=
| OnStateChange (s : LivePlayerState)
| OnFrequencyData (bins : nat)
| OnTimeUpdate (t : Q)
| OnDurationChange (d : Q).

(** ** Host objects *)

(** An [HTMLAudioElement], reduced to the attributes the class touches. *)
Record Audio := mkAudio {
  el_src : string;
  el_crossOrigin : string;
  el_preload : string;
  el_volume : Q;
  el_paused : bool;
  el_currentTime : Q;
  el_duration : Q
}.

Definition newAudio (url : string) : Audio :=
  mkAudio url EmptyString EmptyString 1 true 0 0.

Definition el_set_src (v : string) (a : Audio) : Audio :=
  mkAudio v (el_crossOrigin a) (el_preload a) (el_volume a) (el_paused a)
          (el_currentTime a) (el_duration a).
Definition el_set_crossOrigin (v : string) (a : Audio) : Audio :=
  mkAudio (el_src a) v (el_preload a) (el_volume a) (el_paused a)
          (el_currentTime a) (el_duration a).
Definition el_set_preload (v : string) (a : Audio) : Audio :=
  mkAudio (el_src a) (el_crossOrigin a) v (el_volume a) (el_paused a)
          (el_currentTime a) (el_duration a).
Definition el_set_volume (v : Q) (a : Audio) : Audio :=
  mkAudio (el_src a) (el_crossOrigin a) (el_preload a) v (el_paused a)
          (el_currentTime a) (el_duration a).
Definition el_set_paused (v : bool) (a : Audio) : Audio :=
  mkAudio (el_src a) (el_crossOrigin a) (el_preload a) (el_volume a) v
          (el_currentTime a) (el_duration a).
Definition el_set_currentTime (v : Q) (a : Audio) : Audio :=
  mkAudio (el_src a) (el_crossOrigin a) (el_preload a) (el_volume a) (el_paused a)
          v (el_duration a).
Definition el_set_duration (v : Q) (a : Audio) : Audio :=
  mkAudio (el_src a) (el_crossOrigin a) (el_preload a) (el_volume a) (el_paused a)
          (el_currentTime a) v.

(** [audio.pause()], [audio.play()] and [audio.load()]: the element's own
    flags; the events and the promise they give rise to come from the host. *)
Definition el_pause (a : Audio) : Audio := el_set_paused true a.
Definition el_play (a : Audio) : Audio := el_set_paused false a.
Definition el_load (a : Audio) : Audio :=
  el_set_duration 0 (el_set_currentTime 0 (el_set_paused true a)).

Inductive Source := Intro | Live.

(** The [AudioContext] with its analyser graph. *)
Record AudioContext := mkContext {
  ctx_closed : bool;
  ctx_tapped : list Source   (* media-element sources created so far *)
}.

Record AnalyserNode := mkAnalyser {
  fftSize : nat;
  an_inputs : list Source    (* sources connected to the analyser *)
}.

Definition frequencyBinCount (a : AnalyserNode) : nat := Nat.div (fftSize a) 2.

(** What a pending timer will run: the closures handed to [setTimeout],
    each with the variables it captured. *)
Inductive Task :=
| ReconnectTask                                          (* () => this.goLiveNow() *)
| CrossfadeTask (step : nat)                             (* crossfade, with its [step] *)
| PlayRetryTask (urls : list string) (index : nat)       (* after a rejected play() *)
| CandidateTimeoutTask (urls : list string) (index : nat).

Record Timer := mkTimer { timerId : nat; due : Z; task : Task }.

(** A play() promise of the live element that has not settled yet, with the
    arguments its [catch] handler captured. *)
Record PlayPromise := mkPromise {
  promiseId : nat; p_urls : list string; p_index : nat
}.

(** ** The controller object and its host *)

(** The private fields of the class. *)
Record LivePlayer := mkPlayer {
  state : LivePlayerState;
  introAudio : option Audio;
  liveAudio : option Audio;
  audioContext : option AudioContext;
  analyser : option AnalyserNode;
  frequencyData : option nat;          (* the Uint8Array, by its length *)
  animationFrame : option nat;
  reconnectTimeout : option nat;
  crossfadeTimeout : option nat
}.

(** What the browser holds on the controller's behalf. *)
Record Host := mkHost {
  introListeners : bool;               (* setupIntroListeners registered them *)
  liveListeners : bool;                (* setupLiveListeners registered them *)
  clock : Z;                           (* milliseconds *)
  timers : list Timer;                 (* pending setTimeout entries, oldest first *)
  frames : list nat;                   (* pending requestAnimationFrame handles *)
  promises : list PlayPromise;         (* unsettled play() promises of tryStreamUrls *)
  nextHandle : nat;                    (* handles are positive, hence truthy *)
  trace : list Callback                (* callback invocations, oldest first *)
}.

Record World := mkWorld { obj : LivePlayer; host : Host }.

Definition st (w : World) : LivePlayerState := state (obj w).

Definition set_state v (w : World) : World :=
  let o := obj w in let h := host w in mkWorld
    (mkPlayer v (introAudio o) (liveAudio o) (audioContext o) (analyser o)
       (frequencyData o) (animationFrame o) (reconnectTimeout o) (crossfadeTimeout o)) h.
Definition set_introAudio v (w : World) : World :=
  let o := obj w in let h := host w in mkWorld
    (mkPlayer (state o) v (liveAudio o) (audioContext o) (analyser o)
       (frequencyData o) (animationFrame o) (reconnectTimeout o) (crossfadeTimeout o)) h.
Definition set_liveAudio v (w : World) : World :=
  let o := obj w in let h := host w in mkWorld
    (mkPlayer (state o) (introAudio o) v (audioContext o) (analyser o)
       (frequencyData o) (animationFrame o) (reconnectTimeout o) (crossfadeTimeout o)) h.
Definition set_audioContext v (w : World) : World :=
  let o := obj w in let h := host w in mkWorld
    (mkPlayer (state o) (introAudio o) (liveAudio o) v (analyser o)
       (frequencyData o) (animationFrame o) (reconnectTimeout o) (crossfadeTimeout o)) h.
Definition set_analyser v (w : World) : World :=
  let o := obj w in let h := host w in mkWorld
    (mkPlayer (state o) (introAudio o) (liveAudio o) (audioContext o) v
       (frequencyData o) (animationFrame o) (reconnectTimeout o) (crossfadeTimeout o)) h.
Definition set_frequencyData v (w : World) : World :=
  let o := obj w in let h := host w in mkWorld
    (mkPlayer (state o) (introAudio o) (liveAudio o) (audioContext o) (analyser o)
       v (animationFrame o) (reconnectTimeout o) (crossfadeTimeout o)) h.
Definition set_animationFrame v (w : World) : World :=
  let o := obj w in let h := host w in mkWorld
    (mkPlayer (state o) (introAudio o) (liveAudio o) (audioContext o) (analyser o)
       (frequencyData o) v (reconnectTimeout o) (crossfadeTimeout o)) h.
Definition set_reconnectTimeout v (w : World) : World :=
  let o := obj w in let h := host w in mkWorld
    (mkPlayer (state o) (introAudio o) (liveAudio o) (audioContext o) (analyser o)
       (frequencyData o) (animationFrame o) v (crossfadeTimeout o)) h.
Definition set_crossfadeTimeout v (w : World) : World :=
  let o := obj w in let h := host w in mkWorld
    (mkPlayer (state o) (introAudio o) (liveAudio o) (audioContext o) (analyser o)
       (frequencyData o) (animationFrame o) (reconnectTimeout o) v) h.

Definition set_introListeners v (w : World) : World :=
  let o := obj w in let h := host w in mkWorld o
    (mkHost v (liveListeners h) (clock h) (timers h) (frames h) (promises h)
       (nextHandle h) (trace h)).
Definition set_liveListeners v (w : World) : World :=
  let o := obj w in let h := host w in mkWorld o
    (mkHost (introListeners h) v (clock h) (timers h) (frames h) (promises h)
       (nextHandle h) (trace h)).
Definition set_clock v (w : World) : World :=
  let o := obj w in let h := host w in mkWorld o
    (mkHost (introListeners h) (liveListeners h) v (timers h) (frames h) (promises h)
       (nextHandle h) (trace h)).
Definition set_timers v (w : World) : World :=
  let o := obj w in let h := host w in mkWorld o
    (mkHost (introListeners h) (liveListeners h) (clock h) v (frames h) (promises h)
       (nextHandle h) (trace h)).
Definition set_frames v (w : World) : World :=
  let o := obj w in let h := host w in mkWorld o
    (mkHost (introListeners h) (liveListeners h) (clock h) (timers h) v (promises h)
       (nextHandle h) (trace h)).
Definition set_promises v (w : World) : World :=
  let o := obj w in let h := host w in mkWorld o
    (mkHost (introListeners h) (liveListeners h) (clock h) (timers h) (frames h) v
       (nextHandle h) (trace h)).
Definition set_nextHandle v (w : World) : World :=
  let o := obj w in let h := host w in mkWorld o
    (mkHost (introListeners h) (liveListeners h) (clock h) (timers h) (frames h)
       (promises h) v (trace h)).
Definition set_trace v (w : World) : World :=
  let o := obj w in let h := host w in mkWorld o
    (mkHost (introListeners h) (liveListeners h) (clock h) (timers h) (frames h)
       (promises h) (nextHandle h) v).

(** *** Host services *)

(** [setTimeout(task, delay)]: a fresh handle, the entry appended to the table. *)
Definition setTimeout (t : Task) (delay : Z) (w : World) : nat * World :=
  let id := nextHandle (host w) in
  let entry := mkTimer id (clock (host w) + delay) t in
  (id, set_nextHandle (S id) (set_timers (timers (host w) ++ [entry]) w)).

(** [clearTimeout(id)]: drops the entry if it is still pending. *)
Definition clearTimeout (id : nat) (w : World) : World :=
  set_timers (filter (fun t => negb (Nat.eqb (timerId t) id)) (timers (host w))) w.

Definition requestAnimationFrame (w : World) : nat * World :=
  let id := nextHandle (host w) in
  (id, set_nextHandle (S id) (set_frames (frames (host w) ++ [id]) w)).

Definition cancelAnimationFrame (id : nat) (w : World) : World :=
  set_frames (filter (fun f => negb (Nat.eqb f id)) (frames (host w))) w.

Definition invoke (c : Callback) (w : World) : World :=
  set_trace (trace (host w) ++ [c]) w.

Definition present {A} (o : option A) : bool :=
  match o with Some _ => true | None => false end.

(** Applies [f] to an element that may be absent ([this.introAudio?.f()]). *)
Definition on_intro (f : Audio -> Audio) (w : World) : World :=
  set_introAudio (option_map f (introAudio (obj w))) w.
Definition on_live (f : Audio -> Audio) (w : World) : World :=
  set_liveAudio (option_map f (liveAudio (obj w))) w.

(** ** The class *)

(** [constructor(callbacks)] *)
Definition constructor : World :=
  mkWorld
    (mkPlayer (mkState INTRO false (1 # 2) 0 0 0 10)
              None None None None None None None None)
    (mkHost false false 0 [] [] [] 1%nat []).

(** [updateState(updates)] *)
Definition updateState (updates : Partial) (w : World) : World :=
  let w1 := set_state (merge (st w) updates) w in
  invoke (OnStateChange (st w1)) w1.

(** [connectAudioSource(audio)]: [createMediaElementSource] throws when the
    element is absent or already tapped; the [catch] swallows it. *)
Definition connectAudioSource (which : Source) (w : World) : World :=
  match audioContext (obj w), analyser (obj w) with
  | Some ctx, Some an =>
      let there :=
        match which with
        | Intro => present (introAudio (obj w))
        | Live => present (liveAudio (obj w))
        end in
      let tapped :=
        existsb (fun s => match s, which with
                          | Intro, Intro | Live, Live => true
                          | _, _ => false end) (ctx_tapped ctx) in
      if there && negb tapped then
        set_analyser (Some (mkAnalyser (fftSize an) (an_inputs an ++ [which])))
          (set_audioContext (Some (mkContext (ctx_closed ctx) (ctx_tapped ctx ++ [which]))) w)
      else w
  | _, _ => w
  end.

Definition steps : nat := 50.
Definition stepDuration : Z := 2000 / Z.of_nat steps.

Definition Qnat (n : nat) : Q := inject_Z (Z.of_nat n).

(** The closure [crossfade] of [startCrossfade], run with its captured
    variable [step] holding [step]. *)
Definition crossfade (step : nat) (w : World) : World :=
  match introAudio (obj w), liveAudio (obj w) with
  | Some _, Some _ =>
      let progress := (Qnat step / Qnat steps)%Q in
      let introVolume := ((1 - progress) * volume (st w))%Q in
      let liveVolume := (progress * volume (st w))%Q in
      let w1 := on_intro (el_set_volume (Qmax 0 introVolume)) w in
      let w2 := on_live (el_set_volume (Qmax 0 liveVolume)) w1 in
      let step' := S step in
      if (step' <=? steps)%nat then
        let (id, w3) := setTimeout (CrossfadeTask step') stepDuration w2 in
        set_crossfadeTimeout (Some id) w3
      else
        on_intro (fun a => el_set_currentTime 0 (el_pause a)) w2
  | _, _ => w
  end.

(** [startCrossfade()] *)
Definition startCrossfade (w : World) : World :=
  match introAudio (obj w), liveAudio (obj w) with
  | Some _, Some _ =>
      let w1 := match crossfadeTimeout (obj w) with
                | Some id => clearTimeout id w
                | None => w
                end in
      crossfade 0 w1
  | _, _ => w
  end.

(** [handleLiveError()] *)
Definition handleLiveError (w : World) : World :=
  let attempts := reconnectAttempts (st w) + 1 in
  if attempts >=? maxReconnectAttempts (st w) then
    updateState (with_status LIVE_UNAVAILABLE
                   (with_isPlaying false
                      (with_reconnectAttempts attempts no_updates))) w
  else
    let w1 := updateState (with_status LIVE_RECONNECTING
                             (with_reconnectAttempts attempts no_updates)) w in
    let (id, w2) := setTimeout ReconnectTask 3000 w1 in
    set_reconnectTimeout (Some id) w2.

(** [tryStreamUrls(urls, index)] *)
Definition tryStreamUrls (urls : list string) (index : nat) (w : World) : World :=
  match liveAudio (obj w), nth_error urls index with
  | Some _, Some url =>
      let w1 := on_live (fun a => el_load (el_set_src url a)) w in
      let w2 := connectAudioSource Live w1 in
      (* play() hands back a promise; its catch handler captures urls, index *)
      let w3 := on_live el_play w2 in
      let pid := nextHandle (host w3) in
      let w4 := set_nextHandle (S pid)
                  (set_promises (promises (host w3) ++ [mkPromise pid urls index]) w3) in
      snd (setTimeout (CandidateTimeoutTask urls index) 5000 w4)
  | _, _ => handleLiveError w
  end.

Definition streamUrls : list string :=
  [ "https://radio.killedbythegalaxy.com/radio/8000/radio.mp3";
    "https://stream.zeno.fm/your-fallback-stream";
    "/music/intro.mp3" ]%string.

(** [goLiveNow()] *)
Definition goLiveNow (w : World) : World :=
  match liveAudio (obj w) with
  | None => w
  | Some _ =>
      let w1 := match reconnectTimeout (obj w) with
                | Some id => set_reconnectTimeout None (clearTimeout id w)
                | None => w
                end in
      let w2 := updateState (with_status LIVE_CONNECTING
                               (with_reconnectAttempts 0 no_updates)) w1 in
      tryStreamUrls streamUrls 0 w2
  end.

(** [setVolume(volume)] *)
Definition setVolume (v : Q) (w : World) : World :=
  let w1 := updateState (with_volume v no_updates) w in
  let w2 := on_intro (el_set_volume v) w1 in
  on_live (el_set_volume v) w2.

(** [togglePlayPause()] *)
Definition togglePlayPause (w : World) : World :=
  match status (st w) with
  | INTRO =>
      if isPlaying (st w) then on_intro el_pause w
      else connectAudioSource Intro (on_intro el_play w)
  | LIVE_ON_AIR =>
      if isPlaying (st w) then on_live el_pause w
      else on_live el_play w
  | _ => w
  end.

(** [teardown()] *)
Definition teardown (w : World) : World :=
  let w1 := match reconnectTimeout (obj w) with
            | Some id => clearTimeout id w | None => w end in
  let w2 := match crossfadeTimeout (obj w1) with
            | Some id => clearTimeout id w1 | None => w1 end in
  let w3 := match animationFrame (obj w2) with
            | Some id => cancelAnimationFrame id w2 | None => w2 end in
  let w4 := on_intro (fun a => el_load (el_set_src EmptyString (el_pause a))) w3 in
  let w5 := on_live (fun a => el_load (el_set_src EmptyString (el_pause a))) w4 in
  match audioContext (obj w5) with
  | Some ctx =>
      if negb (ctx_closed ctx)
      then set_audioContext (Some (mkContext true (ctx_tapped ctx))) w5
      else w5
  | None => w5
  end.

(** The closure [analyze] of [startFrequencyAnalysis]. *)
Definition analyze (w : World) : World :=
  let w1 := match analyser (obj w), frequencyData (obj w) with
            | Some _, Some n => invoke (OnFrequencyData n) w
            | _, _ => w
            end in
  let (id, w2) := requestAnimationFrame w1 in
  set_animationFrame (Some id) w2.

Definition startFrequencyAnalysis (w : World) : World := analyze w.

(** [setupIntroListeners()] and [setupLiveListeners()]: registration only;
    the listener bodies are [introListener] and [liveListener] below. *)
Definition setupIntroListeners (w : World) : World :=
  match introAudio (obj w) with
  | None => w
  | Some _ => set_introListeners true w
  end.

Definition setupLiveListeners (w : World) : World :=
  match liveAudio (obj w) with
  | None => w
  | Some _ => set_liveListeners true w
  end.

(** Where the [try] block of [init] may throw. *)
Inductive InitPoint :=
| AtAudioContext      (* new AudioContext() *)
| AtCreateAnalyser    (* createAnalyser() *)
| AtAnalyserConnect   (* analyser.connect(destination) *)
| AtIntroAudio        (* new Audio('/music/intro.mp3') *)
| AtLiveAudio.        (* new Audio() *)

Inductive InitOutcome := InitOk | Throws (at_ : InitPoint).

Definition throws_at (o : InitOutcome) (p : InitPoint) : bool :=
  match o, p with
  | Throws AtAudioContext, AtAudioContext
  | Throws AtCreateAnalyser, AtCreateAnalyser
  | Throws AtAnalyserConnect, AtAnalyserConnect
  | Throws AtIntroAudio, AtIntroAudio
  | Throws AtLiveAudio, AtLiveAudio => true
  | _, _ => false
  end.

(** The [try] block of [init()]: [inl] when it runs to its end, [inr] with
    the world as it stands when the host throws. *)
Definition init_try (o : InitOutcome) (w : World) : World + World :=
  if throws_at o AtAudioContext then inr w else
  let w1 := set_audioContext (Some (mkContext false [])) w in
  if throws_at o AtCreateAnalyser then inr w1 else
  let an := mkAnalyser 256 [] in
  let w2 := set_frequencyData (Some (frequencyBinCount an))
              (set_analyser (Some an) w1) in
  if throws_at o AtAnalyserConnect then inr w2 else
  if throws_at o AtIntroAudio then inr w2 else
  let intro := el_set_volume (volume (st w2))
                 (el_set_preload "auto"
                    (el_set_crossOrigin "anonymous" (newAudio "/music/intro.mp3"))) in
  let w3 := set_introAudio (Some intro) w2 in
  if throws_at o AtLiveAudio then inr w3 else
  let live := el_set_volume (volume (st w3))
                (el_set_crossOrigin "anonymous" (newAudio EmptyString)) in
  let w4 := set_liveAudio (Some live) w3 in
  let w5 := setupIntroListeners w4 in
  let w6 := setupLiveListeners w5 in
  let w7 := startFrequencyAnalysis w6 in
  inl (updateState (with_status INTRO no_updates) w7).

(** [init()]: the [try] block, and the [catch] block when it threw. *)
Definition init (o : InitOutcome) (w : World) : World :=
  match init_try o w with
  | inl w' => w'
  | inr w' => updateState (with_status LIVE_UNAVAILABLE no_updates) w'
  end.

(** *** Listener bodies *)

Inductive IntroEvent :=
| IntroLoadedMetadata (d : Q)   (* the element now reports duration d *)
| IntroTimeUpdate (t : Q)       (* the element now reports currentTime t *)
| IntroEnded | IntroPlay | IntroPause | IntroError | IntroCanPlayThrough.

Inductive LiveEvent :=
| LiveCanPlay | LivePlay | LivePause | LiveError | LiveStalled
| LiveLoadStart | LiveCanPlayThrough.

Definition introListener (e : IntroEvent) (w : World) : World :=
  match e with
  | IntroLoadedMetadata d =>
      let w1 := on_intro (el_set_duration d) w in
      match introAudio (obj w1) with
      | Some a => updateState (with_duration (el_duration a) no_updates) w1
      | None => w1
      end
  | IntroTimeUpdate t =>
      let w1 := on_intro (el_set_currentTime t) w in
      match introAudio (obj w1) with
      | Some a =>
          let currentTime := el_currentTime a in
          invoke (OnTimeUpdate currentTime)
            (updateState (with_currentTime currentTime no_updates) w1)
      | None => w1
      end
  | IntroEnded => goLiveNow (updateState (with_isPlaying false no_updates) w)
  | IntroPlay => updateState (with_isPlaying true no_updates) w
  | IntroPause => updateState (with_isPlaying false no_updates) w
  | IntroError => goLiveNow w
  | IntroCanPlayThrough => w
  end.

Definition liveListener (e : LiveEvent) (w : World) : World :=
  match e with
  | LiveCanPlay =>
      if Status_eqb (status (st w)) LIVE_CONNECTING then
        startCrossfade
          (updateState (with_status LIVE_ON_AIR (with_isPlaying true no_updates)) w)
      else w
  | LivePlay =>
      if Status_eqb (status (st w)) LIVE_ON_AIR then
        updateState (with_isPlaying true no_updates) w
      else w
  | LivePause => updateState (with_isPlaying false no_updates) w
  | LiveError => handleLiveError w
  | LiveStalled => handleLiveError w
  | LiveLoadStart => w
  | LiveCanPlayThrough => w
  end.

(** *** Timer bodies and promise rejection *)

Definition run_task (t : Task) (w : World) : World :=
  match t with
  | ReconnectTask => goLiveNow w
  | CrossfadeTask step => crossfade step w
  | PlayRetryTask urls index => tryStreamUrls urls (index + 1)%nat w
  | CandidateTimeoutTask urls index =>
      if Status_eqb (status (st w)) LIVE_CONNECTING then
        tryStreamUrls urls (index + 1)%nat w
      else w
  end.

(** The pending timer that expires first; the older one on a tie. *)
Fixpoint earliest (ts : list Timer) : option Timer :=
  match ts with
  | [] => None
  | t :: rest =>
      match earliest rest with
      | Some m => if due m <? due t then Some m else Some t
      | None => Some t
      end
  end.

(** The host lets the next timer expire and runs its body. *)
Definition tick (w : World) : World :=
  match earliest (timers (host w)) with
  | None => w
  | Some t =>
      run_task (task t)
        (set_clock (Z.max (clock (host w)) (due t)) (clearTimeout (timerId t) w))
  end.

(** The host renders a frame: the callbacks requested so far run once each. *)
Definition frame (w : World) : World :=
  fold_left (fun acc _ => analyze acc) (frames (host w)) (set_frames [] w).

(** The play() promise [pid] rejects: its [catch] handler schedules the retry. *)
Definition playRejected (pid : nat) (w : World) : World :=
  match find (fun p => Nat.eqb (promiseId p) pid) (promises (host w)) with
  | None => w
  | Some p =>
      let w1 := set_promises
                  (filter (fun q => negb (Nat.eqb (promiseId q) pid)) (promises (host w))) w in
      snd (setTimeout (PlayRetryTask (p_urls p) (p_index p)) 1000 w1)
  end.

(** ** The event loop *)

Inductive Event :=
| TogglePlayPause | GoLiveNow | SetVolume (v : Q) | Teardown     (* intents *)
| OnIntro (e : IntroEvent)
| OnLive (e : LiveEvent)
| PlayRejected (pid : nat)
| Tick
| Frame
| Wait (ms : Z).

Definition step (e : Event) (w : World) : World :=
  match e with
  | TogglePlayPause => togglePlayPause w
  | GoLiveNow => goLiveNow w
  | SetVolume v => setVolume v w
  | Teardown => teardown w
  | OnIntro ev => if introListeners (host w) then introListener ev w else w
  | OnLive ev => if liveListeners (host w) then liveListener ev w else w
  | PlayRejected pid => playRejected pid w
  | Tick => tick w
  | Frame => frame w
  | Wait ms => set_clock (clock (host w) + Z.max 0 ms) w
  end.

Definition run (es : list Event) (w : World) : World :=
  fold_left (fun acc e => step e acc) es w.

(** A controller as the application creates it: constructed, initialised
    once, then driven by events. *)
Inductive reachable : World -> Prop :=
| reach_init : forall o, reachable (init o constructor)
| reach_step : forall e w, reachable w -> reachable (step e w).

(** ** Vocabulary of the properties *)

(** The state snapshots among the callbacks delivered so far. *)
Fixpoint snapshots (tr : list Callback) : list LivePlayerState :=
  match tr with
  | [] => []
  | OnStateChange s :: rest => s :: snapshots rest
  | _ :: rest => snapshots rest
  end.

(** [tracks w w']: going from [w] to [w'], every change of the session
    record was delivered as a snapshot, the last one being the record that
    [w'] holds. *)
Definition tracks (w w' : World) : Prop :=
  exists l, snapshots (trace (host w')) = snapshots (trace (host w)) ++ l
            /\ last l (st w) = st w'.

(** [silent w w']: neither the record nor the snapshots changed. *)
Definition silent (w w' : World) : Prop :=
  st w' = st w /\ snapshots (trace (host w')) = snapshots (trace (host w)).

(** How one field of the record comes out of a merge: the named value when
    the update names the field, the previous value otherwise. *)
Definition field_merged {A} (get : LivePlayerState -> A) (named : Partial -> option A)
    (old : LivePlayerState) (u : Partial) (new : LivePlayerState) : Prop :=
  match named u with
  | Some v => get new = v
  | None => get new = get old
  end.

(** A session that went live and whose stream became playable. *)
Definition on_air_world : World :=
  run [GoLiveNow; OnLive LiveCanPlay] (init InitOk constructor).






Definition is_setVolume (e : Event) : bool :=
  match e with SetVolume _ => true | _ => false end.







(** Half-way through the handoff, at the default target 0.5: step 25 has
    run, step 26 is pending. *)
Definition mid_fade_world : World :=
  run ([GoLiveNow; OnLive LiveCanPlay] ++ repeat Tick 25) (init InitOk constructor).

(** The retry budget as the code keeps it: the ceiling is the constant 10,
    the counter is not negative, and outside LIVE_UNAVAILABLE it is below
    the ceiling. *)
Definition within_budget (s : LivePlayerState) : Prop :=
  maxReconnectAttempts s = 10
  /\ 0 <= reconnectAttempts s
  /\ (status s <> LIVE_UNAVAILABLE -> reconnectAttempts s < maxReconnectAttempts s).

Definition budget_kept (w : World) : Prop :=
  within_budget (st w) /\ Forall within_budget (snapshots (trace (host w))).

(** Eleven stall reports from the live element inside the first reconnect
    delay (200 ms apart, the reconnect timer is due after 3000 ms). *)
Definition stalling_world : World :=
  run (GoLiveNow
       :: flat_map (fun e => [e; Wait 200]) (repeat (OnLive LiveStalled) 11))
    (init InitOk constructor).

(** What each snapshot delivered so far showed of the retry state. *)
Definition retry_history (w : World) : list (Status * Z) :=
  map (fun s => (status s, reconnectAttempts s)) (snapshots (trace (host w))).

Definition pending_tasks (w : World) : list (Z * Task) :=
  map (fun t => (due t, task t)) (timers (host w)).

(** One connect cycle that fails: the 5000 ms timeouts of the three
    candidates expire one after the other while the session is connecting. *)
Definition failed_cycle : list Event := [Tick; Tick; Tick].

(** The 3000 ms reconnect delay elapses. *)
Definition reconnect_delay : list Event := [Tick].

(** Ten failed connect cycles in a row, each followed by the reconnect
    delay except the last. *)
Definition ten_failed_cycles : list Event :=
  GoLiveNow :: failed_cycle
  ++ flat_map (fun _ => reconnect_delay ++ failed_cycle) (seq 1 9).

(** What the retry loop depends on: whether the live element exists, the
    record, and the bodies of the pending timers. *)
Definition view (w : World) : bool * LivePlayerState * list Task :=
  (present (liveAudio (obj w)), st w, map task (timers (host w))).

(** The world after [n + 1] failed connect cycles in a row. *)
Fixpoint after_failed_cycles (n : nat) : World :=
  match n with
  | O => run (GoLiveNow :: failed_cycle) (init InitOk constructor)
  | S n => run (reconnect_delay ++ failed_cycle) (after_failed_cycles n)
  end.

(** Waiting for the reconnect timer after a first failure. *)
Definition retrying (w : World) : Prop :=
  present (liveAudio (obj w)) = true
  /\ status (st w) = LIVE_RECONNECTING
  /\ reconnectAttempts (st w) = 1
  /\ maxReconnectAttempts (st w) = 10
  /\ map task (timers (host w)) = [ReconnectTask].

(** The callbacks invoked from world [w] on, in [w']. *)
Definition callbacks_since (w w' : World) : list Callback :=
  skipn (List.length (trace (host w))) (trace (host w')).

(** The last candidate is tried at 10000 ms; its play() promise rejects
    4500 ms later, so its retry (due 15500) and its timeout (due 15000) are
    both pending when the timeout expires. *)
Definition timeout_then_retry : list Event :=
  [GoLiveNow; Tick; Tick; Wait 4500; PlayRejected 6; Tick; Tick].

(** ** Vocabulary of the further properties *)




(** The element as [teardown] leaves it. *)
Definition released (a : Audio) : Audio := el_load (el_set_src EmptyString (el_pause a)).

(** The handle a field holds, if any. *)
Definition held (o : option nat) : list nat :=
  match o with Some id => [id] | None => [] end.

(** The timer table without the entries of the given handles. *)
Definition without_handles (ids : list nat) (ts : list Timer) : list Timer :=
  filter (fun t => negb (existsb (Nat.eqb (timerId t)) ids)) ts.

(** The frame requests without those of the given handles. *)
Definition without_frames (ids : list nat) (fs : list nat) : list nat :=
  filter (fun f => negb (existsb (Nat.eqb f) ids)) fs.

Definition closed_context (c : AudioContext) : AudioContext :=
  mkContext true (ctx_tapped c).

(** A session on air whose fade is over, with the timeout of the candidate
    that succeeded still pending. *)
Definition faded_world : World := run (repeat Tick 50) on_air_world.

(** The transitions of the session status, event by event: from status [a]
    an event [e] may leave the status alone, or
    - a go-live (the intent, the end or failure of the intro, or a timer)
      moves it to LIVE_CONNECTING;
    - a failure (error or stall of the live element, or a timer) moves it
      to LIVE_RECONNECTING or LIVE_UNAVAILABLE;
    - [canplay] moves it from LIVE_CONNECTING to LIVE_ON_AIR. *)
Definition may_move (e : Event) (a b : Status) : bool :=
  Status_eqb a b
  || match e, b with
     | (GoLiveNow | OnIntro IntroEnded | OnIntro IntroError | Tick), LIVE_CONNECTING => true
     | (OnLive LiveError | OnLive LiveStalled | Tick),
       (LIVE_RECONNECTING | LIVE_UNAVAILABLE) => true
     | OnLive LiveCanPlay, LIVE_ON_AIR => Status_eqb a LIVE_CONNECTING
     | _, _ => false
     end.

(** Callback sequences the controller produces: state snapshots, frequency
    samples, and time updates, each time update directly after the
    snapshot that carries the same time. *)
Inductive well_reported : list Callback -> Prop :=
| wr_nil : well_reported []
| wr_state : forall s r, well_reported r -> well_reported (OnStateChange s :: r)
| wr_frequency : forall n r, well_reported r -> well_reported (OnFrequencyData n :: r)
| wr_time : forall s r,
    well_reported r ->
    well_reported (OnStateChange s :: OnTimeUpdate (currentTime s) :: r).

(** [says w w']: what was delivered between [w] and [w'] is well reported. *)
Definition says (w w' : World) : Prop :=
  exists l, trace (host w') = trace (host w) ++ l /\ well_reported l.

(** The intro has been playing for three seconds. *)
Definition intro_playing_world : World :=
  run [TogglePlayPause; OnIntro IntroPlay; OnIntro (IntroTimeUpdate 3)]
    (init InitOk constructor).

(** A controller whose [init] failed: no live element, no listener
    registered, nothing pending, and LIVE_UNAVAILABLE in the record. *)
Definition inert (w : World) : Prop :=
  liveAudio (obj w) = None
  /\ introListeners (host w) = false
  /\ liveListeners (host w) = false
  /\ timers (host w) = []
  /\ frames (host w) = []
  /\ promises (host w) = []
  /\ status (st w) = LIVE_UNAVAILABLE
  /\ reconnectAttempts (st w) = 0.

(** The frequency samples among the callbacks delivered, by their size. *)
Fixpoint samples (tr : list Callback) : list nat :=
  match tr with
  | [] => []
  | OnFrequencyData n :: rest => n :: samples rest
  | _ :: rest => samples rest
  end.

(** What the analysis loop depends on and produces. *)
Definition feed (w : World) : list nat * option nat * bool * option nat * list nat :=
  (frames (host w), animationFrame (obj w), present (analyser (obj w)),
   frequencyData (obj w), samples (trace (host w))).

(** [feed_same w w']: the analysis loop is where it was. *)
Definition feed_same (w w' : World) : Prop := feed w' = feed w.

(** The analysis loop runs: analyser and array exist, and exactly one
    animation frame is requested, the one whose handle the object holds. *)
Definition feed_alive (w : World) : Prop :=
  present (analyser (obj w)) = true
  /\ frequencyData (obj w) = Some 128%nat
  /\ exists id, frames (host w) = [id] /\ animationFrame (obj w) = Some id.

Definition is_teardown (e : Event) : bool :=
  match e with Teardown => true | _ => false end.

Definition is_frame (e : Event) : bool :=
  match e with Frame => true | _ => false end.

(** No [teardown] among the events. *)
Definition no_teardown (es : list Event) : bool :=
  forallb (fun e => negb (is_teardown e)) es.

Definition is_fade (t : Timer) : bool :=
  match task t with CrossfadeTask _ => true | _ => false end.

(** The fade steps that are pending. *)
Definition fades (w : World) : list Timer := filter is_fade (timers (host w)).

(** Every pending fade step is the one whose handle the object holds. *)
Definition fade_held (w : World) : Prop :=
  forall t, In t (fades w) -> crossfadeTimeout (obj w) = Some (timerId t).

(** [calm w w']: the fade handle is untouched and no fade step was added. *)
Definition calm (w w' : World) : Prop :=
  crossfadeTimeout (obj w') = crossfadeTimeout (obj w)
  /\ exists p, fades w' = filter p (fades w).

(** The controller holds the fade it runs, and runs at most one. *)
Definition one_fade (w : World) : Prop :=
  fade_held w /\ (List.length (fades w) <= 1)%nat.

(** The fields of the record that follow the media and the volume intent. *)
Definition measures (w : World) : Q * Q * Q * Z :=
  (volume (st w), currentTime (st w), duration (st w), maxReconnectAttempts (st w)).

Definition measures_same (w w' : World) : Prop := measures w' = measures w.

Definition is_timeupdate (e : Event) : bool :=
  match e with OnIntro (IntroTimeUpdate _) => true | _ => false end.

Definition is_loadedmetadata (e : Event) : bool :=
  match e with OnIntro (IntroLoadedMetadata _) => true | _ => false end.

(** ** The player's controls (SplashScreen.tsx) *)

(** The component holds [volume] as React state, starting at 0.5, and hands
    it to the controller's [setVolume]; the two buttons compute the next
    value from the rendered one. The equalizer reads ten samples of the
    frequency data delivered by [onFrequencyData]. *)
Module SplashScreen.







Definition bands : Z := 10.

(** [Math.floor(frequencyData.length / bands)] *)
Definition step (frequencyData : list Z) : Z :=
  Z.of_nat (List.length frequencyData) / bands.

(** [frequencyData[index * step] || 0]: a read past the end is [undefined]
    and gives 0, as does a sample that is 0. *)
Definition frequency (frequencyData : list Z) (index : Z) : Z :=
  nth (Z.to_nat (index * step frequencyData)) frequencyData 0.

Definition normalizedFreq (frequencyData : list Z) (index : Z) : Q :=
  inject_Z (frequency frequencyData index) / 255.

Definition targetScale (frequencyData : list Z) (index : Z) : Q :=
  (1 # 2) + normalizedFreq frequencyData index * 2.

End SplashScreen.


Definition is_byte (b : Z) : Prop := 0 <= b <= 255.

(** * Properties *)

(** ** Reading fields back after an update *)

Ltac unfold_setters :=
  unfold set_state, set_introAudio, set_liveAudio, set_audioContext, set_analyser,
    set_frequencyData, set_animationFrame, set_reconnectTimeout, set_crossfadeTimeout,
    set_introListeners, set_liveListeners, set_clock, set_timers, set_frames,
    set_promises, set_nextHandle, set_trace in *.

Ltac unfold_host :=
  unfold invoke, on_intro, on_live, setTimeout, clearTimeout,
    requestAnimationFrame, cancelAnimationFrame, st in *;
  unfold_setters.

Ltac world := unfold_host; cbn [obj host state introAudio liveAudio audioContext
  analyser frequencyData animationFrame reconnectTimeout crossfadeTimeout
  introListeners liveListeners clock timers frames promises nextHandle trace
  fst snd option_map] in *.

(** The same by call-by-value, for worlds given by their fields. *)
Ltac crunch :=
  cbv [set_state set_introAudio set_liveAudio set_audioContext set_analyser
       set_frequencyData set_animationFrame set_reconnectTimeout set_crossfadeTimeout
       set_introListeners set_liveListeners set_clock set_timers set_frames
       set_promises set_nextHandle set_trace
       invoke on_intro on_live setTimeout clearTimeout requestAnimationFrame
       cancelAnimationFrame st updateState
       obj host state introAudio liveAudio audioContext analyser frequencyData
       animationFrame reconnectTimeout crossfadeTimeout introListeners liveListeners
       clock timers frames promises nextHandle trace
       fst snd option_map present] in *;
  cbn [timerId due task] in *.

Lemma snapshots_app tr1 tr2 :
  snapshots (tr1 ++ tr2) = snapshots tr1 ++ snapshots tr2.
Proof.
  induction tr1 as [|c tr1 IH]; [reflexivity|].
  destruct c; cbn; rewrite IH; reflexivity.
Qed.

Lemma tracks_refl w : tracks w w.
Proof. exists []. rewrite app_nil_r. split; reflexivity. Qed.

Lemma last_cons_default {A} (a : A) l d : last (a :: l) d = last l a.
Proof.
  revert a d; induction l as [|b l IH]; intros a d; [reflexivity|].
  change (last (b :: l) d = last (b :: l) a). rewrite !IH. reflexivity.
Qed.

Lemma last_app_default {A} (l1 l2 : list A) d :
  last (l1 ++ l2) d = last l2 (last l1 d).
Proof.
  revert d; induction l1 as [|a l1 IH]; intros d; [reflexivity|].
  rewrite <- app_comm_cons, !last_cons_default. apply IH.
Qed.

Lemma tracks_trans w1 w2 w3 : tracks w1 w2 -> tracks w2 w3 -> tracks w1 w3.
Proof.
  intros [l1 [H1 L1]] [l2 [H2 L2]]. exists (l1 ++ l2). split.
  - rewrite H2, H1, app_assoc. reflexivity.
  - rewrite last_app_default, L1. exact L2.
Qed.

Lemma silent_refl w : silent w w.
Proof. split; reflexivity. Qed.

Lemma silent_trans w1 w2 w3 : silent w1 w2 -> silent w2 w3 -> silent w1 w3.
Proof. intros [A B] [C D]. split; congruence. Qed.

Lemma tracks_silent w w' : silent w w' -> tracks w w'.
Proof. intros [S T]. exists []. rewrite app_nil_r. split; [exact T | symmetry; exact S]. Qed.

Lemma tracks_updateState u w : tracks w (updateState u w).
Proof.
  exists [merge (st w) u]. unfold updateState. world.
  rewrite snapshots_app. split; reflexivity.
Qed.

(** Host services and element updates are silent. *)
Ltac quiet :=
  unfold silent; world;
  rewrite ?snapshots_app; cbn [snapshots]; rewrite ?app_nil_r; split; reflexivity.

Create HintDb silent discriminated.
Create HintDb tracks discriminated.

Section Silent.
Variable w : World.

Lemma silent_set_introAudio v : silent w (set_introAudio v w).
Proof. quiet. Qed.
Lemma silent_set_liveAudio v : silent w (set_liveAudio v w).
Proof. quiet. Qed.
Lemma silent_set_audioContext v : silent w (set_audioContext v w).
Proof. quiet. Qed.
Lemma silent_set_analyser v : silent w (set_analyser v w).
Proof. quiet. Qed.
Lemma silent_set_frequencyData v : silent w (set_frequencyData v w).
Proof. quiet. Qed.
Lemma silent_set_animationFrame v : silent w (set_animationFrame v w).
Proof. quiet. Qed.
Lemma silent_set_reconnectTimeout v : silent w (set_reconnectTimeout v w).
Proof. quiet. Qed.
Lemma silent_set_crossfadeTimeout v : silent w (set_crossfadeTimeout v w).
Proof. quiet. Qed.
Lemma silent_set_introListeners v : silent w (set_introListeners v w).
Proof. quiet. Qed.
Lemma silent_set_liveListeners v : silent w (set_liveListeners v w).
Proof. quiet. Qed.
Lemma silent_set_clock v : silent w (set_clock v w).
Proof. quiet. Qed.
Lemma silent_set_timers v : silent w (set_timers v w).
Proof. quiet. Qed.
Lemma silent_set_frames v : silent w (set_frames v w).
Proof. quiet. Qed.
Lemma silent_set_promises v : silent w (set_promises v w).
Proof. quiet. Qed.
Lemma silent_set_nextHandle v : silent w (set_nextHandle v w).
Proof. quiet. Qed.
Lemma silent_on_intro f : silent w (on_intro f w).
Proof. quiet. Qed.
Lemma silent_on_live f : silent w (on_live f w).
Proof. quiet. Qed.
Lemma silent_clearTimeout id : silent w (clearTimeout id w).
Proof. quiet. Qed.
Lemma silent_cancelAnimationFrame id : silent w (cancelAnimationFrame id w).
Proof. quiet. Qed.
Lemma silent_setTimeout t d : silent w (snd (setTimeout t d w)).
Proof. quiet. Qed.
Lemma silent_requestAnimationFrame : silent w (snd (requestAnimationFrame w)).
Proof. quiet. Qed.
Lemma silent_invoke_frequency n : silent w (invoke (OnFrequencyData n) w).
Proof. quiet. Qed.
Lemma silent_invoke_time t : silent w (invoke (OnTimeUpdate t) w).
Proof. quiet. Qed.

End Silent.

#[local] Hint Resolve silent_set_introAudio silent_set_liveAudio silent_set_audioContext
  silent_set_analyser silent_set_frequencyData silent_set_animationFrame
  silent_set_reconnectTimeout silent_set_crossfadeTimeout silent_set_introListeners
  silent_set_liveListeners silent_set_clock silent_set_timers silent_set_frames
  silent_set_promises silent_set_nextHandle silent_on_intro silent_on_live
  silent_clearTimeout silent_cancelAnimationFrame silent_setTimeout
  silent_requestAnimationFrame silent_invoke_frequency silent_invoke_time : silent.

#[local] Hint Resolve tracks_silent tracks_updateState : tracks.

(** Peel the outermost call off the world reached, as long as it is one
    already known to be silent ([hush]) or to track ([peel]). *)
Ltac hush :=
  repeat (eapply silent_trans; [| solve [auto with silent nocore]]);
  try apply silent_refl.

Ltac peel :=
  repeat (eapply tracks_trans; [| solve [auto with tracks silent nocore]]);
  try apply tracks_refl.

(** Names the handle of a [let (id, w') := setTimeout ...] (or
    [requestAnimationFrame]) and keeps the world as the call's second component. *)
Ltac open_pair :=
  match goal with
  | |- context [setTimeout ?t ?d ?x] =>
      let id := fresh "id" in let w' := fresh "w'" in let E := fresh "E" in
      destruct (setTimeout t d x) as [id w'] eqn:E;
      apply (f_equal snd) in E; cbn [snd] in E; subst w'
  | |- context [requestAnimationFrame ?x] =>
      let id := fresh "id" in let w' := fresh "w'" in let E := fresh "E" in
      destruct (requestAnimationFrame x) as [id w'] eqn:E;
      apply (f_equal snd) in E; cbn [snd] in E; subst w'
  end.

Lemma silent_connectAudioSource s w : silent w (connectAudioSource s w).
Proof.
  unfold connectAudioSource.
  destruct (audioContext (obj w)), (analyser (obj w)); try apply silent_refl.
  destruct (_ && _); hush.
Qed.
#[local] Hint Resolve silent_connectAudioSource : silent.

Lemma silent_crossfade k w : silent w (crossfade k w).
Proof.
  unfold crossfade.
  destruct (introAudio (obj w)), (liveAudio (obj w)); try apply silent_refl.
  cbv zeta. destruct (_ <=? _)%nat; [open_pair|]; hush.
Qed.

Lemma silent_startCrossfade w : silent w (startCrossfade w).
Proof.
  unfold startCrossfade.
  destruct (introAudio (obj w)), (liveAudio (obj w)); try apply silent_refl.
  eapply silent_trans; [|apply silent_crossfade].
  destruct (crossfadeTimeout (obj w)); hush.
Qed.

Lemma silent_togglePlayPause w : silent w (togglePlayPause w).
Proof.
  unfold togglePlayPause.
  destruct (status (st w)), (isPlaying (st w)); hush.
Qed.

Lemma silent_teardown w : silent w (teardown w).
Proof.
  unfold teardown. cbv zeta.
  repeat match goal with
         | |- context [match ?x with _ => _ end] => destruct x
         end; hush.
Qed.

Lemma silent_analyze w : silent w (analyze w).
Proof.
  unfold analyze. cbv zeta. open_pair.
  destruct (analyser (obj w)), (frequencyData (obj w)); hush.
Qed.

Lemma silent_frame w : silent w (frame w).
Proof.
  unfold frame. eapply silent_trans with (w2 := set_frames [] w); [hush|].
  generalize (set_frames [] w) as v. generalize (frames (host w)) as fs.
  induction fs as [|f fs IH]; intros v; cbn [fold_left]; [apply silent_refl|].
  eapply silent_trans; [apply silent_analyze | apply IH].
Qed.

Lemma silent_playRejected pid w : silent w (playRejected pid w).
Proof. unfold playRejected. destruct (find _ _); cbv zeta; hush. Qed.

Lemma silent_setupIntroListeners w : silent w (setupIntroListeners w).
Proof. unfold setupIntroListeners. destruct (introAudio _); hush. Qed.

Lemma silent_setupLiveListeners w : silent w (setupLiveListeners w).
Proof. unfold setupLiveListeners. destruct (liveAudio _); hush. Qed.

Lemma silent_startFrequencyAnalysis w : silent w (startFrequencyAnalysis w).
Proof. apply silent_analyze. Qed.

#[local] Hint Resolve silent_crossfade silent_startCrossfade silent_togglePlayPause
  silent_teardown silent_analyze silent_frame silent_playRejected
  silent_setupIntroListeners silent_setupLiveListeners
  silent_startFrequencyAnalysis : silent.

Lemma tracks_handleLiveError w : tracks w (handleLiveError w).
Proof.
  unfold handleLiveError. cbv zeta.
  destruct (_ >=? _); [|open_pair]; peel.
Qed.

Lemma tracks_tryStreamUrls urls i w : tracks w (tryStreamUrls urls i w).
Proof.
  unfold tryStreamUrls.
  destruct (liveAudio (obj w)); [|apply tracks_handleLiveError].
  destruct (nth_error urls i); [|apply tracks_handleLiveError].
  cbv zeta. peel.
Qed.

Lemma tracks_goLiveNow w : tracks w (goLiveNow w).
Proof.
  unfold goLiveNow.
  destruct (liveAudio (obj w)); [|apply tracks_refl].
  cbv zeta. eapply tracks_trans; [|apply tracks_tryStreamUrls].
  eapply tracks_trans; [|apply tracks_updateState].
  destruct (reconnectTimeout (obj w)); peel.
Qed.

Lemma tracks_setVolume v w : tracks w (setVolume v w).
Proof. unfold setVolume. cbv zeta. peel. Qed.

Lemma tracks_introListener e w : tracks w (introListener e w).
Proof.
  destruct e; cbn [introListener]; cbv zeta;
    try match goal with
        | |- context [match ?x with _ => _ end] => destruct x
        end;
    repeat (eapply tracks_trans; [| apply tracks_goLiveNow]); peel.
Qed.

Lemma tracks_liveListener e w : tracks w (liveListener e w).
Proof.
  destruct e; cbn [liveListener];
    try destruct (Status_eqb _ _);
    try apply tracks_handleLiveError; peel.
Qed.

Lemma tracks_run_task t w : tracks w (run_task t w).
Proof.
  destruct t; cbn [run_task];
    auto using tracks_goLiveNow, tracks_tryStreamUrls with tracks silent.
  destruct (Status_eqb _ _); auto using tracks_refl, tracks_tryStreamUrls.
Qed.

Lemma tracks_tick w : tracks w (tick w).
Proof.
  unfold tick. destruct (earliest _) as [t|]; [|apply tracks_refl].
  eapply tracks_trans; [|apply tracks_run_task]. peel.
Qed.

Lemma tracks_step e w : tracks w (step e w).
Proof.
  destruct e; cbn [step];
    auto using tracks_goLiveNow, tracks_setVolume, tracks_tick with tracks silent.
  - destruct (introListeners _); auto using tracks_refl, tracks_introListener.
  - destruct (liveListeners _); auto using tracks_refl, tracks_liveListener.
Qed.

Lemma tracks_init o w : tracks w (init o w).
Proof.
  unfold init, init_try. cbv zeta.
  repeat match goal with
         | |- context [if throws_at ?a ?b then _ else _] => destruct (throws_at a b)
         end; peel.
Qed.

Lemma tracks_run es w : tracks w (run es w).
Proof.
  unfold run. revert w; induction es as [|e es IH]; intros w; cbn [fold_left].
  - apply tracks_refl.
  - eapply tracks_trans; [apply tracks_step | apply IH].
Qed.

(** ** C10 *)

(** C10. [updateState] merges the partial update into the previous record:
    each field takes the named value if the update names it and keeps its
    previous value otherwise; it then invokes [onStateChange] exactly once,
    with the complete merged record, and touches nothing else (putting the
    old record and the old trace back gives the world it started from). Every
    mutation of the record goes through it: across [init] and across any
    event, the snapshots delivered end with the record the controller then
    holds (or none was delivered and the record is unchanged). *)
Theorem updateState_merges_and_notifies :
  (forall (u : Partial) (w : World),
      let w' := updateState u w in
      st w' = merge (st w) u
      /\ field_merged status u_status (st w) u (st w')
      /\ field_merged isPlaying u_isPlaying (st w) u (st w')
      /\ field_merged volume u_volume (st w) u (st w')
      /\ field_merged currentTime u_currentTime (st w) u (st w')
      /\ field_merged duration u_duration (st w) u (st w')
      /\ field_merged reconnectAttempts u_reconnectAttempts (st w) u (st w')
      /\ field_merged maxReconnectAttempts u_maxReconnectAttempts (st w) u (st w')
      /\ trace (host w') = trace (host w) ++ [OnStateChange (st w')]
      /\ set_state (st w) (set_trace (trace (host w)) w') = w)
  /\ (forall o w, tracks w (init o w))
  /\ (forall e w, tracks w (step e w)).
Proof.
  split; [|split; [exact tracks_init | exact tracks_step]].
  intros u [[s ia la ac an fd af rt ct] [il ll ck ts fs ps nh tr]].
  cbv zeta. unfold updateState, field_merged. world.
  destruct u as [a b c d e f g]; cbn.
  destruct a, b, c, d, e, f, g; cbn; repeat split; reflexivity.
Qed.

(** ** C9 *)

(** C9. Wherever the [try] block of [init] throws, the [catch] block takes
    over and [init] returns: no exception reaches the caller. When
    acquisition throws (at any of its points) the session ends in
    LIVE_UNAVAILABLE and exactly that snapshot is reported through
    [onStateChange]; when nothing throws the session is in INTRO with
    [isPlaying] as it was, which for a newly constructed controller is
    [false], both elements exist, are paused, and no play() was requested. *)
Theorem init_reports_through_state :
  (forall (p : InitPoint) (w : World),
      let w' := init (Throws p) w in
      (exists thrown, init_try (Throws p) w = inr thrown)
      /\ st w' = merge (st w) (with_status LIVE_UNAVAILABLE no_updates)
      /\ status (st w') = LIVE_UNAVAILABLE
      /\ trace (host w') = trace (host w) ++ [OnStateChange (st w')])
  /\ (forall w : World,
      let w' := init InitOk w in
      init_try InitOk w = inl w'
      /\ status (st w') = INTRO
      /\ isPlaying (st w') = isPlaying (st w)
      /\ trace (host w') =
           trace (host w) ++ [OnFrequencyData 128; OnStateChange (st w')]
      /\ option_map el_paused (introAudio (obj w')) = Some true
      /\ option_map el_paused (liveAudio (obj w')) = Some true
      /\ option_map el_src (introAudio (obj w')) = Some "/music/intro.mp3"%string
      /\ promises (host w') = promises (host w)
      /\ timers (host w') = timers (host w))
  /\ status (st (init InitOk constructor)) = INTRO
  /\ isPlaying (st (init InitOk constructor)) = false.
Proof.
  split; [|split; [|split; reflexivity]].
  - intros p [[s ia la ac an fd af rt ct] [il ll ck ts fs ps nh tr]]. cbv zeta.
    split; [destruct p; eexists; reflexivity|].
    destruct p; cbv - [app]; repeat split.
  - intros [[s ia la ac an fd af rt ct] [il ll ck ts fs ps nh tr]]. cbv zeta.
    split; [reflexivity|].
    cbv - [app]. rewrite <- app_assoc. repeat split.
Qed.

(** ** C4 *)

Lemma reachable_run es w : reachable w -> reachable (run es w).
Proof.
  unfold run. revert w; induction es as [|e es IH]; intros w R; cbn [fold_left].
  - exact R.
  - apply IH. apply reach_step. exact R.
Qed.

(** C4, as stated, fails: on a session that is LIVE_ON_AIR a go-live intent
    moves the status back to LIVE_CONNECTING and schedules a new candidate
    timeout. *)
Lemma goLiveNow_not_noop_on_air :
  ~ (forall w : World,
        reachable w ->
        status (st w) = LIVE_CONNECTING \/ status (st w) = LIVE_ON_AIR ->
        status (st (step GoLiveNow w)) = status (st w)
        /\ timers (host (step GoLiveNow w)) = timers (host w)).
Proof.
  intros claim.
  destruct (claim on_air_world) as [S _].
  - apply reachable_run. apply reach_init.
  - right. reflexivity.
  - vm_compute in S. discriminate S.
Qed.

(** C4, amended. [goLiveNow] has no guard on the status. Whenever the live
    element exists, from any status, it sets the status to LIVE_CONNECTING,
    resets [reconnectAttempts] to 0, drops the reconnect timer it holds,
    points the live element at the first candidate and starts that
    candidate's 5000 ms timeout: the candidate sequence restarts. It does
    nothing only when the live element is absent. *)
Theorem goLiveNow_restarts_from_any_status :
  forall (w : World) (la : Audio),
    liveAudio (obj w) = Some la ->
    let w' := goLiveNow w in
    status (st w') = LIVE_CONNECTING
    /\ reconnectAttempts (st w') = 0
    /\ reconnectTimeout (obj w') = None
    /\ option_map el_src (liveAudio (obj w')) = nth_error streamUrls 0
    /\ timers (host w') =
         match reconnectTimeout (obj w) with
         | Some id => filter (fun t => negb (Nat.eqb (timerId t) id)) (timers (host w))
         | None => timers (host w)
         end
         ++ [mkTimer (S (nextHandle (host w))) (clock (host w) + 5000)
               (CandidateTimeoutTask streamUrls 0)]
    /\ promises (host w') =
         promises (host w) ++ [mkPromise (nextHandle (host w)) streamUrls 0].
Proof.
  intros [[s ia la0 ac an fd af rt ct] [il ll ck ts fs ps nh tr]] la L.
  cbn in L. subst la0. cbv zeta.
  destruct rt as [id|], ac as [[closed tapped]|], an as [[fft inputs]|];
    cbv - [app filter Z.add Nat.eqb negb existsb];
    try destruct (negb (existsb _ tapped)); repeat split.
Qed.

Lemma goLiveNow_without_live_element w :
  liveAudio (obj w) = None -> goLiveNow w = w.
Proof. intros L. unfold goLiveNow. rewrite L. reflexivity. Qed.

Lemma goLiveNow_restarts_witness :
  status (st on_air_world) = LIVE_ON_AIR
  /\ status (st (goLiveNow on_air_world)) = LIVE_CONNECTING
  /\ reconnectAttempts (st (goLiveNow on_air_world)) = 0.
Proof.
  assert (L : exists la, liveAudio (obj on_air_world) = Some la)
    by (vm_compute; eexists; reflexivity).
  destruct L as [la L].
  split; [vm_compute; reflexivity|].
  destruct (goLiveNow_restarts_from_any_status on_air_world la L) as (A & B & _).
  split; assumption.
Defined.

(** ** C6 *)





(** *** The whole fade, timer by timer *)






(** *** Only [setVolume] moves the target *)


















(** ** C7 *)




(** ** C2 *)

Lemma budget_silent w w' : silent w w' -> budget_kept w -> budget_kept w'.
Proof. intros [S T] [A B]. split; [rewrite S | rewrite T]; assumption. Qed.

Lemma budget_updateState u w :
  budget_kept w -> within_budget (merge (st w) u) -> budget_kept (updateState u w).
Proof.
  intros [A B] M. unfold budget_kept, updateState. world.
  split; [exact M|]. rewrite snapshots_app. apply Forall_app. split; [exact B|].
  cbn [snapshots]. constructor; [exact M | constructor].
Qed.

Ltac keep :=
  repeat (eapply budget_silent; [solve [auto with silent nocore] |]);
  try assumption.

Lemma budget_handleLiveError w : budget_kept w -> budget_kept (handleLiveError w).
Proof.
  intros B. pose proof B as [(M & N & L) _].
  unfold handleLiveError. cbv zeta.
  destruct (Z.geb_spec (reconnectAttempts (st w) + 1) (maxReconnectAttempts (st w)));
    [|open_pair; keep]; apply budget_updateState; try exact B;
    unfold within_budget; cbn; repeat split; try lia; try congruence.
Qed.

Lemma budget_tryStreamUrls urls i w :
  budget_kept w -> budget_kept (tryStreamUrls urls i w).
Proof.
  intros B. unfold tryStreamUrls.
  destruct (liveAudio (obj w)); [|apply budget_handleLiveError; exact B].
  destruct (nth_error urls i); [|apply budget_handleLiveError; exact B].
  cbv zeta. keep.
Qed.

Lemma budget_goLiveNow w : budget_kept w -> budget_kept (goLiveNow w).
Proof.
  intros B. unfold goLiveNow.
  destruct (liveAudio (obj w)); [|exact B].
  cbv zeta. apply budget_tryStreamUrls.
  assert (B1 : budget_kept match reconnectTimeout (obj w) with
                           | Some id => set_reconnectTimeout None (clearTimeout id w)
                           | None => w
                           end)
    by (destruct (reconnectTimeout (obj w)); keep).
  apply budget_updateState; [exact B1|].
  destruct B1 as [(M & N & L) _].
  unfold within_budget; cbn; repeat split; try lia; try congruence.
Qed.

(** An update that names neither the status nor the counters. *)
Lemma budget_unrelated u w :
  u_status u = None -> u_reconnectAttempts u = None -> u_maxReconnectAttempts u = None ->
  budget_kept w -> budget_kept (updateState u w).
Proof.
  intros U1 U2 U3 B. apply budget_updateState; [exact B|].
  destruct B as [(M & N & L) _].
  unfold within_budget, merge. cbn. rewrite U1, U2, U3. cbn. auto.
Qed.

Lemma budget_setVolume v w : budget_kept w -> budget_kept (setVolume v w).
Proof.
  intros B. unfold setVolume. cbv zeta. keep.
  apply budget_unrelated; auto.
Qed.

Lemma budget_introListener e w : budget_kept w -> budget_kept (introListener e w).
Proof.
  intros B. destruct e; cbn [introListener]; cbv zeta;
    try match goal with
        | |- context [match ?x with _ => _ end] => destruct x eqn:?
        end;
    try apply budget_goLiveNow; keep;
    try solve [apply budget_unrelated; auto].
Qed.

Lemma budget_liveListener e w : budget_kept w -> budget_kept (liveListener e w).
Proof.
  intros B. destruct e; cbn [liveListener];
    try (destruct (Status_eqb _ _) eqn:S);
    try apply budget_handleLiveError; keep;
    try solve [apply budget_unrelated; auto].
  apply budget_updateState; [exact B|].
  destruct B as [(M & N & L) _].
  destruct (status (st w)) eqn:Es; try discriminate S.
  unfold within_budget; cbn.
  repeat split; try lia; try congruence. intros _. apply L. discriminate.
Qed.

Lemma budget_run_task t w : budget_kept w -> budget_kept (run_task t w).
Proof.
  intros B. destruct t; cbn [run_task];
    auto using budget_goLiveNow, budget_tryStreamUrls.
  - keep.
  - destruct (Status_eqb _ _); auto using budget_tryStreamUrls.
Qed.

Lemma budget_tick w : budget_kept w -> budget_kept (tick w).
Proof.
  intros B. unfold tick. destruct (earliest _) as [t|]; [|exact B].
  apply budget_run_task. keep.
Qed.

Lemma budget_step e w : budget_kept w -> budget_kept (step e w).
Proof.
  intros B. destruct e; cbn [step];
    auto using budget_goLiveNow, budget_setVolume, budget_tick; keep.
  - destruct (introListeners _); auto using budget_introListener.
  - destruct (liveListeners _); auto using budget_liveListener.
Qed.

Lemma budget_init o : budget_kept (init o constructor).
Proof.
  destruct o as [|[]]; unfold budget_kept, within_budget;
    vm_compute; repeat split; try discriminate;
    repeat constructor; try discriminate.
Qed.

Lemma budget_reachable w : reachable w -> budget_kept w.
Proof.
  induction 1 as [o | e w _ IH]; [apply budget_init | apply budget_step; exact IH].
Qed.

(** C2, as stated, fails: nothing caps the counter. After eleven failure
    events with no go-live in between it stands at 11, above the ceiling
    of 10. *)
Lemma reconnectAttempts_exceeds_ceiling :
  ~ (forall w : World,
        reachable w ->
        reconnectAttempts (st w) <= maxReconnectAttempts (st w)).
Proof.
  intros claim.
  assert (R : reachable stalling_world)
    by (apply reachable_run; apply reach_init).
  specialize (claim stalling_world R).
  vm_compute in claim. apply claim. reflexivity.
Qed.

(** C2, amended. In every reachable state, and in every snapshot delivered
    to [onStateChange], the ceiling is 10 and the counter is below it
    unless the status is LIVE_UNAVAILABLE. A failure adds exactly one to
    the counter; when that brings it to the ceiling or beyond, the same
    transition sets the status to LIVE_UNAVAILABLE with [isPlaying] false
    and schedules no timer; otherwise it sets LIVE_RECONNECTING. *)
Theorem reconnect_budget :
  forall w : World,
    reachable w ->
    within_budget (st w)
    /\ Forall within_budget (snapshots (trace (host w)))
    /\ (let w' := handleLiveError w in
        reconnectAttempts (st w') = reconnectAttempts (st w) + 1
        /\ (maxReconnectAttempts (st w) <= reconnectAttempts (st w') ->
            status (st w') = LIVE_UNAVAILABLE
            /\ isPlaying (st w') = false
            /\ timers (host w') = timers (host w))
        /\ (reconnectAttempts (st w') < maxReconnectAttempts (st w) ->
            status (st w') = LIVE_RECONNECTING)).
Proof.
  intros w R. destruct (budget_reachable w R) as [A B].
  split; [exact A|]. split; [exact B|].
  cbv zeta. unfold handleLiveError. cbv zeta.
  destruct (Z.geb_spec (reconnectAttempts (st w) + 1) (maxReconnectAttempts (st w)));
    unfold updateState; world;
    cbn [merge spread with_status with_isPlaying with_reconnectAttempts no_updates
         status isPlaying reconnectAttempts maxReconnectAttempts
         u_status u_isPlaying u_reconnectAttempts u_maxReconnectAttempts];
    repeat split; intros; try lia; reflexivity.
Qed.

Lemma reconnect_budget_witness :
  status (st stalling_world) = LIVE_UNAVAILABLE
  /\ reconnectAttempts (st stalling_world) = 11
  /\ within_budget (st stalling_world)
  /\ reconnectAttempts (st (handleLiveError stalling_world)) = 12.
Proof.
  assert (R : reachable stalling_world)
    by (apply reachable_run; apply reach_init).
  destruct (reconnect_budget stalling_world R) as (A & _ & B & _).
  split; [reflexivity|]. split; [reflexivity|]. split; [exact A|].
  rewrite B. reflexivity.
Defined.

(** ** C1, C3: the reconnect timer goes through [goLiveNow] *)

(** C1, on the code. After a first failed cycle the session is
    LIVE_RECONNECTING with [reconnectAttempts] = 1 and the reconnect timer
    pending; when the timer expires the session is LIVE_CONNECTING with
    [reconnectAttempts] = 0: the counter is reset, not carried over. *)
Theorem reconnect_timer_resets_attempts :
  let w := run (GoLiveNow :: failed_cycle) (init InitOk constructor) in
  let w' := run reconnect_delay w in
  status (st w) = LIVE_RECONNECTING
  /\ reconnectAttempts (st w) = 1
  /\ clock (host w) = 15000
  /\ pending_tasks w = [(18000, ReconnectTask)]
  /\ clock (host w') = 18000
  /\ status (st w') = LIVE_CONNECTING
  /\ reconnectAttempts (st w') = 0.
Proof. vm_compute. repeat split. Qed.

(** The reset happens whenever the reconnect timer runs on a controller
    that has a live element. *)
Lemma reconnect_task_resets w la :
  liveAudio (obj w) = Some la ->
  reconnectAttempts (st (run_task ReconnectTask w)) = 0.
Proof.
  destruct w as [[s ia la0 ac an fd af rt ct] [il ll ck ts fs ps nh tr]].
  intros L. cbn in L. subst la0.
  destruct rt as [id|], ac as [[closed tapped]|], an as [[fft inputs]|];
    cbv - [app filter Z.add Nat.eqb negb existsb];
    try destruct (negb (existsb _ tapped)); reflexivity.
Qed.

(** *** The retry loop, cycle by cycle *)

Lemma tick_single w X :
  map task (timers (host w)) = [X] ->
  exists w1, tick w = run_task X w1
             /\ view w1 = (present (liveAudio (obj w)), st w, []).
Proof.
  destruct w as [[s ia la ac an fd af rt ct] [il ll ck ts fs ps nh tr]].
  cbn [timers host]. intros T.
  destruct ts as [|t [|t' ts]]; try discriminate T.
  injection T as T. unfold tick. crunch. cbn [earliest filter].
  rewrite Nat.eqb_refl. cbn [negb]. rewrite T.
  eexists. split; [reflexivity|]. reflexivity.
Qed.

Lemma view_tryStreamUrls urls i u w :
  nth_error urls i = Some u ->
  fst (fst (view w)) = true ->
  view (tryStreamUrls urls i w)
  = (true, st w, map task (timers (host w)) ++ [CandidateTimeoutTask urls i]).
Proof.
  destruct w as [[s ia la ac an fd af rt ct] [il ll ck ts fs ps nh tr]].
  intros U L. cbn in L. destruct la as [la|]; [|discriminate L].
  unfold tryStreamUrls. cbn [liveAudio obj]. rewrite U.
  destruct ac as [[closed tapped]|], an as [[fft inputs]|];
    cbv - [app filter Z.add Nat.eqb negb existsb map];
    try destruct (negb (existsb _ tapped)); rewrite map_app; reflexivity.
Qed.

Lemma view_handleLiveError w :
  reconnectAttempts (st w) + 1 < maxReconnectAttempts (st w) ->
  view (handleLiveError w)
  = (fst (fst (view w)),
     merge (st w) (with_status LIVE_RECONNECTING
                     (with_reconnectAttempts (reconnectAttempts (st w) + 1) no_updates)),
     map task (timers (host w)) ++ [ReconnectTask]).
Proof.
  destruct w as [[s ia la ac an fd af rt ct] [il ll ck ts fs ps nh tr]].
  intros A. unfold handleLiveError.
  destruct (Z.geb_spec (reconnectAttempts (st (mkWorld (mkPlayer s ia la ac an fd af rt ct)
              (mkHost il ll ck ts fs ps nh tr))) + 1)
              (maxReconnectAttempts (st (mkWorld (mkPlayer s ia la ac an fd af rt ct)
              (mkHost il ll ck ts fs ps nh tr))))); [lia|].
  cbv - [app Z.add map merge]. rewrite map_app. reflexivity.
Qed.

Lemma view_goLiveNow w :
  fst (fst (view w)) = true ->
  map task (timers (host w)) = [] ->
  view (goLiveNow w)
  = (true,
     merge (st w) (with_status LIVE_CONNECTING (with_reconnectAttempts 0 no_updates)),
     [CandidateTimeoutTask streamUrls 0]).
Proof.
  destruct w as [[s ia la ac an fd af rt ct] [il ll ck ts fs ps nh tr]].
  intros L T. cbn in L, T. destruct la as [la|]; [|discriminate L].
  destruct ts; [|discriminate T].
  destruct rt as [id|], ac as [[closed tapped]|], an as [[fft inputs]|];
    cbv - [Z.add merge existsb negb];
    try destruct (negb (existsb _ tapped)); reflexivity.
Qed.

Lemma tryStreamUrls_at_end urls i w :
  nth_error urls i = None -> tryStreamUrls urls i w = handleLiveError w.
Proof.
  intros U. unfold tryStreamUrls. rewrite U.
  destruct (liveAudio (obj w)); reflexivity.
Qed.

(** A candidate's timeout expires on a connecting session whose only
    pending timer it is. *)
Lemma candidate_times_out w s i :
  view w = (true, s, [CandidateTimeoutTask streamUrls i]) ->
  status s = LIVE_CONNECTING ->
  exists w1, tick w = tryStreamUrls streamUrls (i + 1) w1
             /\ view w1 = (true, s, []).
Proof.
  intros V S. unfold view in V. injection V as L St T.
  destruct (tick_single w _ T) as (w1 & E & V1).
  exists w1. rewrite L, St in V1. split; [|exact V1].
  rewrite E. cbn [run_task].
  unfold view in V1. injection V1 as _ St1 _. rewrite St1, S. reflexivity.
Qed.

Lemma failed_cycle_retries w :
  retrying w -> retrying (run (reconnect_delay ++ failed_cycle) w).
Proof.
  intros (L & _ & _ & M & T).
  unfold run, reconnect_delay, failed_cycle. cbn [app fold_left step].
  (* the reconnect delay elapses *)
  destruct (tick_single w _ T) as (w1 & E1 & V1). rewrite E1. cbn [run_task].
  rewrite L in V1. unfold view in V1. injection V1 as L1 St1 T1.
  pose proof (view_goLiveNow w1 L1 T1) as V2. rewrite St1 in V2.
  (* candidates 0, 1, 2 time out *)
  destruct (candidate_times_out _ _ 0%nat V2 eq_refl) as (w2 & E2 & V2').
  cbn [Nat.add] in E2. rewrite E2.
  assert (V3 := view_tryStreamUrls streamUrls 1 _ w2 eq_refl
                  (f_equal (fun v => fst (fst v)) V2')).
  unfold view in V2'. injection V2' as L2 St2 T2. rewrite St2, T2 in V3.
  destruct (candidate_times_out _ _ 1%nat V3 eq_refl) as (w3 & E3 & V3').
  cbn [Nat.add] in E3. rewrite E3.
  assert (V4 := view_tryStreamUrls streamUrls 2 _ w3 eq_refl
                  (f_equal (fun v => fst (fst v)) V3')).
  unfold view in V3'. injection V3' as L3 St3 T3. rewrite St3, T3 in V4.
  destruct (candidate_times_out _ _ 2%nat V4 eq_refl) as (w4 & E4 & V4').
  cbn [Nat.add] in E4. rewrite E4.
  (* the list is exhausted *)
  rewrite (tryStreamUrls_at_end streamUrls 3 w4 eq_refl).
  unfold view in V4'. injection V4' as L4 St4 T4.
  assert (V5 : view (handleLiveError w4)
               = (true,
                  merge (st w4)
                    (with_status LIVE_RECONNECTING (with_reconnectAttempts 1 no_updates)),
                  [ReconnectTask])).
  { rewrite view_handleLiveError; rewrite St4; cbn; [|lia].
    unfold view. cbn [fst]. rewrite L4, T4. reflexivity. }
  unfold view in V5. injection V5 as L5 St5 T5.
  unfold retrying. rewrite L5, St5, T5, St4. cbn. auto.
Qed.

(** However many connect cycles fail in a row, the session is retrying,
    with the counter at 1. *)
Lemma retry_never_gives_up n :
  status (st (after_failed_cycles n)) = LIVE_RECONNECTING
  /\ reconnectAttempts (st (after_failed_cycles n)) = 1
  /\ map task (timers (host (after_failed_cycles n))) = [ReconnectTask].
Proof.
  assert (R : retrying (after_failed_cycles n)).
  { induction n as [|n IH]; cbn [after_failed_cycles].
    - vm_compute. repeat split.
    - apply failed_cycle_retries. exact IH. }
  destruct R as (_ & S & A & _ & T). repeat split; assumption.
Qed.

(** C3, on the code. After ten consecutive failed cycles the failure
    handler has run ten times, each time from a counter of 0: the session
    is LIVE_RECONNECTING with [reconnectAttempts] = 1, not
    LIVE_UNAVAILABLE, the reconnect timer is pending, and when it expires
    the state changes again. The same holds after any number of failed
    cycles: the session never gives up. *)
Theorem ten_failed_cycles_keep_retrying :
  (let w := run ten_failed_cycles (init InitOk constructor) in
   List.length (filter (fun r => Status_eqb (fst r) LIVE_RECONNECTING) (retry_history w))
     = 10%nat
   /\ forallb (fun r => snd r <=? 1) (retry_history w) = true
   /\ existsb (fun r => Status_eqb (fst r) LIVE_UNAVAILABLE) (retry_history w) = false
   /\ status (st w) = LIVE_RECONNECTING
   /\ reconnectAttempts (st w) = 1
   /\ pending_tasks w = [(clock (host w) + 3000, ReconnectTask)]
   /\ status (st (run reconnect_delay w)) = LIVE_CONNECTING
   /\ reconnectAttempts (st (run reconnect_delay w)) = 0)
  /\ forall n : nat,
       status (st (after_failed_cycles n)) = LIVE_RECONNECTING
       /\ reconnectAttempts (st (after_failed_cycles n)) = 1
       /\ map task (timers (host (after_failed_cycles n))) = [ReconnectTask].
Proof.
  split; [vm_compute; repeat split | exact retry_never_gives_up].
Qed.

(** ** C5: timers that [teardown] holds no handle of *)

(** C5, on the code. [teardown] cancels the timers whose handles the object
    keeps (here the crossfade step and the analysis loop of a session on
    air), but the 5000 ms candidate timeout and the 1000 ms play-rejection
    retry were scheduled without keeping their handles and stay pending.
    Torn down while connecting, the session still has its candidate
    timeout; letting the pending timers expire walks the candidate list to
    its end and invokes [onStateChange] with LIVE_RECONNECTING, and
    schedules a reconnect timer after the teardown. *)
Theorem teardown_leaves_candidate_timers :
  let connecting := run [GoLiveNow] (init InitOk constructor) in
  let torn := step Teardown connecting in
  let later := run [Tick; Tick; Tick] torn in
  (* what teardown does cancel *)
  pending_tasks on_air_world
    = [(5000, CandidateTimeoutTask streamUrls 0); (40, CrossfadeTask 1)]
  /\ frames (host on_air_world) = [1%nat]
  /\ pending_tasks (step Teardown on_air_world)
    = [(5000, CandidateTimeoutTask streamUrls 0)]
  /\ frames (host (step Teardown on_air_world)) = []
  (* what it leaves *)
  /\ pending_tasks torn = [(5000, CandidateTimeoutTask streamUrls 0)]
  /\ pending_tasks (step Teardown (step (PlayRejected 2) connecting))
    = [(5000, CandidateTimeoutTask streamUrls 0); (1000, PlayRetryTask streamUrls 0)]
  /\ callbacks_since torn later
    = [OnStateChange (mkState LIVE_RECONNECTING false (1 # 2) 0 0 1 10)]
  /\ pending_tasks later = [(18000, ReconnectTask)].
Proof. vm_compute. repeat split. Qed.

(** ** C8: the play-rejection retry has no status guard *)

(** C8, on the code. In one go-live sequence whose candidates all fail, the
    timeout of the last candidate reaches the end of the list and invokes
    the failure handler; the retry of the same candidate, which checks no
    status, reaches it again: two LIVE_RECONNECTING snapshots, the counter
    at 2, and two reconnect timers pending, of which the object holds the
    handle of the second only. *)
Theorem timeout_and_retry_both_report_failure :
  let w := run timeout_then_retry (init InitOk constructor) in
  retry_history w
    = [(INTRO, 0); (LIVE_CONNECTING, 0); (LIVE_RECONNECTING, 1); (LIVE_RECONNECTING, 2)]
  /\ reconnectAttempts (st w) = 2
  /\ map (fun t => (timerId t, due t, task t)) (timers (host w))
    = [(9%nat, 18000, ReconnectTask); (10%nat, 18500, ReconnectTask)]
  /\ reconnectTimeout (obj w) = Some 10%nat.
Proof. vm_compute. repeat split. Qed.

(** * Further properties of the class *)

(** ** togglePlayPause *)

(** X1. [togglePlayPause] acts on the play state of one element and on
    nothing else: it never changes the session record, never invokes a
    callback and never touches a timer. Outside INTRO and LIVE_ON_AIR it
    leaves the whole world as it is; in INTRO it pauses or plays the intro
    element and leaves the live element alone; in LIVE_ON_AIR it pauses or
    plays the live element and leaves the intro element alone. The
    [isPlaying] flag only follows when the element reports the change. *)
Theorem togglePlayPause_flips_one_element :
  forall w : World,
    let w' := togglePlayPause w in
    st w' = st w
    /\ host w' = host w
    /\ match status (st w), isPlaying (st w) with
       | INTRO, true =>
           introAudio (obj w') = option_map el_pause (introAudio (obj w))
           /\ liveAudio (obj w') = liveAudio (obj w)
       | INTRO, false =>
           introAudio (obj w') = option_map el_play (introAudio (obj w))
           /\ liveAudio (obj w') = liveAudio (obj w)
       | LIVE_ON_AIR, true =>
           liveAudio (obj w') = option_map el_pause (liveAudio (obj w))
           /\ introAudio (obj w') = introAudio (obj w)
       | LIVE_ON_AIR, false =>
           liveAudio (obj w') = option_map el_play (liveAudio (obj w))
           /\ introAudio (obj w') = introAudio (obj w)
       | _, _ => w' = w
       end.
Proof.
  intros [[s ia la ac an fd af rt ct] [il ll ck ts fs ps nh tr]]. cbv zeta.
  unfold togglePlayPause. cbn [st obj state].
  destruct (status s), (isPlaying s); try (repeat split; reflexivity);
    unfold connectAudioSource; crunch;
    destruct ac as [[closed tapped]|], an as [[fft inputs]|], ia as [ia|];
    cbn; try destruct (negb _); repeat split; reflexivity.
Qed.

(** ** connectAudioSource *)



(** ** teardown *)

Lemma filter_idem {A} (f : A -> bool) l : filter f (filter f l) = filter f l.
Proof.
  induction l as [|a l IH]; [reflexivity|].
  cbn [filter]. destruct (f a) eqn:E; [|exact IH].
  cbn [filter]. rewrite E, IH. reflexivity.
Qed.

Lemma filter_pair_idem {A} (f g : A -> bool) l :
  filter f (filter g (filter f (filter g l))) = filter f (filter g l).
Proof.
  induction l as [|a l IH]; [reflexivity|].
  cbn [filter]. destruct (g a) eqn:G; [|exact IH].
  cbn [filter]. destruct (f a) eqn:F; [|exact IH].
  cbn [filter]. rewrite G. cbn [filter]. rewrite F, IH. reflexivity.
Qed.

Lemma clear_two_handles (ts : list Timer) (a b : nat) :
  filter (fun t => negb (Nat.eqb (timerId t) b))
    (filter (fun t => negb (Nat.eqb (timerId t) a)) ts)
  = without_handles ([a] ++ [b]) ts.
Proof.
  unfold without_handles. induction ts as [|t r IH]; [reflexivity|].
  cbn [filter existsb app]. destruct (Nat.eqb (timerId t) a); cbn [negb orb filter].
  - exact IH.
  - rewrite orb_false_r. destruct (Nat.eqb (timerId t) b); cbn [negb];
      rewrite IH; reflexivity.
Qed.

Lemma clear_one_handle (ts : list Timer) (a : nat) :
  filter (fun t => negb (Nat.eqb (timerId t) a)) ts = without_handles [a] ts.
Proof. apply filter_ext. intros t. cbn. rewrite orb_false_r. reflexivity. Qed.

Lemma clear_no_handle (ts : list Timer) : ts = without_handles [] ts.
Proof.
  unfold without_handles.
  induction ts as [|t r IH]; [reflexivity|]. cbn [filter existsb negb].
  f_equal. exact IH.
Qed.

Lemma cancel_one_frame (fs : list nat) (a : nat) :
  filter (fun f => negb (Nat.eqb f a)) fs = without_frames [a] fs.
Proof. apply filter_ext. intros t. cbn. rewrite orb_false_r. reflexivity. Qed.

Lemma cancel_no_frame (fs : list nat) : fs = without_frames [] fs.
Proof.
  unfold without_frames.
  induction fs as [|t r IH]; [reflexivity|]. cbn [filter existsb negb].
  f_equal. exact IH.
Qed.

(** [teardown], field by field. *)
Lemma teardown_world s ia la ac an fd af rt ct il ll ck ts fs ps nh tr :
  teardown (mkWorld (mkPlayer s ia la ac an fd af rt ct)
                    (mkHost il ll ck ts fs ps nh tr))
  = mkWorld (mkPlayer s (option_map released ia) (option_map released la)
               (option_map closed_context ac) an fd af rt ct)
            (mkHost il ll ck (without_handles (held rt ++ held ct) ts)
               (without_frames (held af) fs) ps nh tr).
Proof.
  destruct rt as [r|], ct as [c|], af as [f|], ac as [[[|] tapped]|],
    ia as [ia|], la as [la|];
    unfold teardown, released, closed_context; crunch;
    cbn [negb ctx_closed ctx_tapped option_map app held]; crunch;
    rewrite ?clear_two_handles, ?clear_one_handle, ?cancel_one_frame;
    rewrite <- ?clear_no_handle, <- ?cancel_no_frame; reflexivity.
Qed.

(** X3. [teardown] stops and unloads both elements (paused, empty source,
    rewound), closes the audio context, and cancels the three handles the
    object holds: the reconnect timer, the fade step and the animation
    frame. It changes neither the session record nor the status and invokes
    no callback. Calling it a second time changes nothing more. *)
Theorem teardown_releases_and_is_idempotent :
  forall w : World,
    let w' := teardown w in
    teardown w' = w'
    /\ st w' = st w
    /\ trace (host w') = trace (host w)
    /\ introAudio (obj w') = option_map released (introAudio (obj w))
    /\ liveAudio (obj w') = option_map released (liveAudio (obj w))
    /\ audioContext (obj w') = option_map closed_context (audioContext (obj w))
    /\ timers (host w')
       = without_handles (held (reconnectTimeout (obj w)) ++ held (crossfadeTimeout (obj w)))
           (timers (host w))
    /\ frames (host w') = without_frames (held (animationFrame (obj w))) (frames (host w)).
Proof.
  intros [[s ia la ac an fd af rt ct] [il ll ck ts fs ps nh tr]]. cbv zeta.
  rewrite !teardown_world. split; [|repeat split].
  unfold without_handles, without_frames. rewrite !filter_idem.
  f_equal. f_equal.
  - destruct ia as [ia|]; reflexivity.
  - destruct la as [la|]; reflexivity.
  - destruct ac as [[closed tapped]|]; reflexivity.
Qed.

(** ** Stale candidate timeouts *)

(** X4. The 5000 ms timeout of a candidate does nothing once the session
    has left LIVE_CONNECTING: when it expires in any other status, the
    controller object, the callbacks delivered and the pending promises are
    exactly as before; only the host's clock and timer table move on. *)
Theorem stale_candidate_timeout_is_ignored :
  forall (w : World) (t : Timer) (urls : list string) (i : nat),
    earliest (timers (host w)) = Some t ->
    task t = CandidateTimeoutTask urls i ->
    status (st w) <> LIVE_CONNECTING ->
    let w' := step Tick w in
    obj w' = obj w
    /\ trace (host w') = trace (host w)
    /\ promises (host w') = promises (host w)
    /\ timers (host w') = without_handles [timerId t] (timers (host w))
    /\ clock (host w') = Z.max (clock (host w)) (due t).
Proof.
  intros [[s ia la ac an fd af rt ct] [il ll ck ts fs ps nh tr]] t urls i E T S.
  cbv zeta. cbn [step]. unfold tick. rewrite E, T. cbn [run_task].
  crunch. destruct (status s); try congruence; cbn [Status_eqb];
    rewrite clear_one_handle; repeat split; reflexivity.
Qed.

Lemma stale_candidate_timeout_witness :
  status (st faded_world) = LIVE_ON_AIR
  /\ obj (step Tick faded_world) = obj faded_world
  /\ trace (host (step Tick faded_world)) = trace (host faded_world)
  /\ timers (host (step Tick faded_world)) = [].
Proof.
  assert (E : exists t, earliest (timers (host faded_world)) = Some t
                        /\ task t = CandidateTimeoutTask streamUrls 0)
    by (vm_compute; eexists; split; reflexivity).
  destruct E as (t & E & T).
  assert (S : status (st faded_world) <> LIVE_CONNECTING)
    by (vm_compute; discriminate).
  destruct (stale_candidate_timeout_is_ignored faded_world t streamUrls 0 E T S)
    as (A & B & _).
  split; [vm_compute; reflexivity|]. split; [exact A|]. split; [exact B|].
  vm_compute. reflexivity.
Defined.

(** ** The canplay listener *)





(** ** The volumes of a fade step *)




Section FadeStep.
Variables (k : nat) (v : Q).
Hypothesis K : (k <= steps)%nat.
Hypothesis V : (0 <= v)%Q.






End FadeStep.





(** ** The status transitions *)

Lemma Status_eqb_refl a : Status_eqb a a = true.
Proof. destruct a; reflexivity. Qed.

Lemma status_silent w w' : silent w w' -> status (st w') = status (st w).
Proof. intros [S _]. rewrite S. reflexivity. Qed.

Lemma status_handleLiveError w :
  status (st (handleLiveError w)) = LIVE_RECONNECTING
  \/ status (st (handleLiveError w)) = LIVE_UNAVAILABLE.
Proof.
  destruct w as [[s ia la ac an fd af rt ct] [il ll ck ts fs ps nh tr]].
  unfold handleLiveError. crunch.
  destruct (_ >=? _); [right | left]; reflexivity.
Qed.

Lemma silent_tryStreamUrls urls i u la w :
  liveAudio (obj w) = Some la -> nth_error urls i = Some u ->
  silent w (tryStreamUrls urls i w).
Proof.
  intros L U. unfold tryStreamUrls. rewrite L, U. cbv zeta. hush.
Qed.

Lemma tryStreamUrls_silent_or_fails urls i w :
  silent w (tryStreamUrls urls i w) \/ tryStreamUrls urls i w = handleLiveError w.
Proof.
  destruct (liveAudio (obj w)) as [la|] eqn:L;
    [|right; unfold tryStreamUrls; rewrite L; reflexivity].
  destruct (nth_error urls i) as [u|] eqn:U;
    [|right; unfold tryStreamUrls; rewrite L, U; reflexivity].
  left. exact (silent_tryStreamUrls urls i u la w L U).
Qed.

Lemma status_tryStreamUrls urls i w :
  status (st (tryStreamUrls urls i w)) = status (st w)
  \/ status (st (tryStreamUrls urls i w)) = LIVE_RECONNECTING
  \/ status (st (tryStreamUrls urls i w)) = LIVE_UNAVAILABLE.
Proof.
  destruct (tryStreamUrls_silent_or_fails urls i w) as [S | E].
  - left. apply status_silent. exact S.
  - right. rewrite E. apply status_handleLiveError.
Qed.

Lemma status_goLiveNow w :
  goLiveNow w = w \/ status (st (goLiveNow w)) = LIVE_CONNECTING.
Proof.
  unfold goLiveNow. destruct (liveAudio (obj w)) as [la|] eqn:L; [right | left; reflexivity].
  cbv zeta.
  set (w1 := match reconnectTimeout (obj w) with
             | Some id => set_reconnectTimeout None (clearTimeout id w)
             | None => w end).
  assert (L1 : liveAudio (obj w1) = Some la)
    by (subst w1; destruct (reconnectTimeout (obj w)); world; exact L).
  set (w2 := updateState (with_status LIVE_CONNECTING (with_reconnectAttempts 0 no_updates)) w1).
  assert (L2 : liveAudio (obj w2) = Some la) by (subst w2; unfold updateState; world; exact L1).
  rewrite (status_silent _ _ (silent_tryStreamUrls streamUrls 0 _ la w2 L2 eq_refl)).
  reflexivity.
Qed.

Lemma status_unrelated u w :
  u_status u = None -> status (st (updateState u w)) = status (st w).
Proof.
  intros U. unfold updateState. world. cbn [merge status]. rewrite U. reflexivity.
Qed.

Lemma may_move_same e a b : b = a -> may_move e a b = true.
Proof. intros ->. unfold may_move. rewrite Status_eqb_refl. reflexivity. Qed.

Lemma may_move_goLiveNow e w :
  match e with
  | GoLiveNow | OnIntro IntroEnded | OnIntro IntroError | Tick => True
  | _ => False
  end ->
  forall w0, status (st w0) = status (st w) ->
  may_move e (status (st w)) (status (st (goLiveNow w0))) = true.
Proof.
  intros E w0 S. destruct (status_goLiveNow w0) as [H | H]; rewrite H.
  - apply may_move_same. exact S.
  - unfold may_move. destruct e as [| | | |[]| | | | |], (status (st w));
      try reflexivity; destruct E.
Qed.

Lemma may_move_fails e w :
  match e with
  | OnLive LiveError | OnLive LiveStalled | Tick => True
  | _ => False
  end ->
  forall w0, may_move e (status (st w)) (status (st (handleLiveError w0))) = true.
Proof.
  intros E w0. destruct (status_handleLiveError w0) as [H | H]; rewrite H;
    unfold may_move; destruct e as [| | | | |[]| | | |], (status (st w));
    try reflexivity; destruct E.
Qed.

Lemma may_move_tryStreamUrls urls i w w0 :
  status (st w0) = status (st w) ->
  may_move Tick (status (st w)) (status (st (tryStreamUrls urls i w0))) = true.
Proof.
  intros S. destruct (tryStreamUrls_silent_or_fails urls i w0) as [H | H].
  - apply may_move_same. rewrite (status_silent _ _ H). exact S.
  - rewrite H. apply may_move_fails. exact I.
Qed.

(** X7. The status moves only along the transitions of [may_move]: an event
    either leaves it alone, or is a go-live (intent, end or failure of the
    intro, reconnect timer) and moves it to LIVE_CONNECTING, or is a
    failure of the live stream (error, stall, exhausted candidate list)
    and moves it to LIVE_RECONNECTING or LIVE_UNAVAILABLE, or is [canplay]
    on a connecting session and moves it to LIVE_ON_AIR. Hence INTRO is
    never entered again once it was left, and LIVE_ON_AIR is entered only
    by [canplay] from LIVE_CONNECTING. *)
Theorem status_moves_along_transitions :
  (forall (e : Event) (w : World),
      may_move e (status (st w)) (status (st (step e w))) = true)
  /\ (forall (es : list Event) (w : World),
      status (st (run es w)) = INTRO -> status (st w) = INTRO)
  /\ (forall (e : Event) (w : World),
      status (st (step e w)) = LIVE_ON_AIR ->
      status (st w) = LIVE_ON_AIR
      \/ (status (st w) = LIVE_CONNECTING /\ e = OnLive LiveCanPlay)).
Proof.
  assert (M : forall e w, may_move e (status (st w)) (status (st (step e w))) = true).
  { intros e w. destruct e; cbn [step].
    - apply may_move_same, status_silent, silent_togglePlayPause.
    - apply may_move_goLiveNow; [exact I | reflexivity].
    - apply may_move_same. unfold setVolume. cbv zeta.
      rewrite (status_silent _ _ (silent_on_live _ _)),
        (status_silent _ _ (silent_on_intro _ _)).
      apply status_unrelated. reflexivity.
    - apply may_move_same, status_silent, silent_teardown.
    - destruct (introListeners (host w)); [|apply may_move_same; reflexivity].
      destruct e; cbn [introListener]; cbv zeta.
      + apply may_move_same.
        destruct (introAudio (obj (on_intro (el_set_duration d) w))).
        * rewrite status_unrelated by reflexivity.
          apply status_silent, silent_on_intro.
        * apply status_silent, silent_on_intro.
      + apply may_move_same.
        destruct (introAudio (obj (on_intro (el_set_currentTime t) w))).
        * rewrite (status_silent _ _ (silent_invoke_time _ _)).
          rewrite status_unrelated by reflexivity.
          apply status_silent, silent_on_intro.
        * apply status_silent, silent_on_intro.
      + apply may_move_goLiveNow; [exact I | apply status_unrelated; reflexivity].
      + apply may_move_same, status_unrelated. reflexivity.
      + apply may_move_same, status_unrelated. reflexivity.
      + apply may_move_goLiveNow; [exact I | reflexivity].
      + apply may_move_same. reflexivity.
    - destruct (liveListeners (host w)); [|apply may_move_same; reflexivity].
      destruct e; cbn [liveListener].
      + destruct (Status_eqb (status (st w)) LIVE_CONNECTING) eqn:C;
          [|apply may_move_same; reflexivity].
        rewrite (status_silent _ _ (silent_startCrossfade _)).
        unfold updateState; world; cbn [merge status spread with_status u_status].
        unfold may_move. rewrite C. apply orb_true_r.
      + destruct (Status_eqb _ _); apply may_move_same;
          [apply status_unrelated|]; reflexivity.
      + apply may_move_same, status_unrelated. reflexivity.
      + apply may_move_fails. exact I.
      + apply may_move_fails. exact I.
      + apply may_move_same. reflexivity.
      + apply may_move_same. reflexivity.
    - apply may_move_same, status_silent, silent_playRejected.
    - unfold tick. destruct (earliest (timers (host w))) as [t|];
        [|apply may_move_same; reflexivity].
      set (w0 := set_clock _ _).
      assert (S0 : status (st w0) = status (st w)).
      { subst w0. rewrite (status_silent _ _ (silent_set_clock _ _)).
        apply status_silent, silent_clearTimeout. }
      destruct (task t); cbn [run_task].
      + apply may_move_goLiveNow; [exact I | exact S0].
      + apply may_move_same. rewrite (status_silent _ _ (silent_crossfade _ _)).
        exact S0.
      + apply may_move_tryStreamUrls. exact S0.
      + destruct (Status_eqb _ _);
          [apply may_move_tryStreamUrls | apply may_move_same]; exact S0.
    - apply may_move_same, status_silent, silent_frame.
    - apply may_move_same, status_silent, silent_set_clock. }
  split; [exact M|]. split.
  - intros es. unfold run. induction es as [|e es IH]; intros w H; cbn [fold_left] in H.
    + exact H.
    + apply IH in H. specialize (M e w). rewrite H in M.
      unfold may_move in M. destruct (status (st w)); try reflexivity;
        cbn [Status_eqb orb] in M; destruct e as [| | | |[]|[]| | | |]; discriminate M.
  - intros e w H. specialize (M e w). rewrite H in M. unfold may_move in M.
    destruct (status (st w)); cbn [Status_eqb orb] in M;
      try (left; reflexivity);
      destruct e as [| | | |[]|[]| | | |]; try discriminate M;
      right; split; reflexivity.
Qed.

Lemma status_moves_witness :
  status (st (run [GoLiveNow; OnLive LiveCanPlay] (init InitOk constructor))) = LIVE_ON_AIR
  /\ status (st (init InitOk constructor)) = INTRO.
Proof.
  destruct status_moves_along_transitions as (_ & A & B).
  split; [vm_compute; reflexivity|].
  apply (A [TogglePlayPause; Wait 10]). vm_compute. reflexivity.
Defined.

(** ** What the observer is told *)

Lemma well_reported_app l1 l2 :
  well_reported l1 -> well_reported l2 -> well_reported (l1 ++ l2).
Proof.
  induction 1 as [|s r _ IH|n r _ IH|s r _ IH]; intros H2; cbn [app].
  - exact H2.
  - apply wr_state. apply IH. exact H2.
  - apply wr_frequency. apply IH. exact H2.
  - apply wr_time. apply IH. exact H2.
Qed.

Lemma says_refl w : says w w.
Proof. exists []. split; [rewrite app_nil_r; reflexivity | constructor]. Qed.

Lemma says_trans w1 w2 w3 : says w1 w2 -> says w2 w3 -> says w1 w3.
Proof.
  intros (l1 & E1 & W1) (l2 & E2 & W2). exists (l1 ++ l2). split.
  - rewrite E2, E1, app_assoc. reflexivity.
  - apply well_reported_app; assumption.
Qed.

Create HintDb says discriminated.

(** A step that leaves the trace alone, or adds one snapshot or sample. *)
Ltac says_prim :=
  first [ exists []; split; [rewrite app_nil_r; reflexivity | constructor]
        | eexists [_]; split; [reflexivity | repeat constructor] ].

Ltac says_step :=
  match goal with
  | |- says ?x _ =>
      let y := fresh "y" in
      generalize x; intro y;
      first [ solve [auto with says nocore] | solve [says_prim] ]
  end.

Ltac tell :=
  repeat match goal with
         | |- says ?w (snd (setTimeout ?t ?d ?x)) =>
             apply (says_trans w x); [| says_step]
         | |- says ?w (snd (requestAnimationFrame ?x)) =>
             apply (says_trans w x); [| says_step]
         | |- says ?w (?f ?x) =>
             apply (says_trans w x); [| says_step]
         end;
  try apply says_refl.

Lemma says_connectAudioSource s w : says w (connectAudioSource s w).
Proof.
  unfold connectAudioSource.
  destruct (audioContext (obj w)), (analyser (obj w)); try apply says_refl.
  destruct (_ && _); tell.
Qed.
#[local] Hint Resolve says_connectAudioSource : says.

Lemma says_crossfade k w : says w (crossfade k w).
Proof.
  unfold crossfade.
  destruct (introAudio (obj w)), (liveAudio (obj w)); try apply says_refl.
  cbv zeta. destruct (_ <=? _)%nat; [open_pair|]; tell.
Qed.
#[local] Hint Resolve says_crossfade : says.

Lemma says_startCrossfade w : says w (startCrossfade w).
Proof.
  unfold startCrossfade.
  destruct (introAudio (obj w)), (liveAudio (obj w)); try apply says_refl.
  eapply says_trans; [|apply says_crossfade].
  destruct (crossfadeTimeout (obj w)); tell.
Qed.

Lemma says_handleLiveError w : says w (handleLiveError w).
Proof.
  unfold handleLiveError. cbv zeta.
  destruct (_ >=? _); [|open_pair]; tell.
Qed.

Lemma says_tryStreamUrls urls i w : says w (tryStreamUrls urls i w).
Proof.
  unfold tryStreamUrls.
  destruct (liveAudio (obj w)); [|apply says_handleLiveError].
  destruct (nth_error urls i); [|apply says_handleLiveError].
  cbv zeta. tell.
Qed.

Lemma says_goLiveNow w : says w (goLiveNow w).
Proof.
  unfold goLiveNow.
  destruct (liveAudio (obj w)); [|apply says_refl].
  cbv zeta. eapply says_trans; [|apply says_tryStreamUrls].
  destruct (reconnectTimeout (obj w)); tell.
Qed.
#[local] Hint Resolve says_startCrossfade says_handleLiveError says_tryStreamUrls
  says_goLiveNow : says.

Lemma says_setVolume v w : says w (setVolume v w).
Proof. unfold setVolume. cbv zeta. tell. Qed.

Lemma says_togglePlayPause w : says w (togglePlayPause w).
Proof.
  unfold togglePlayPause.
  destruct (status (st w)), (isPlaying (st w)); tell.
Qed.

Lemma says_teardown w : says w (teardown w).
Proof.
  unfold teardown. cbv zeta.
  repeat match goal with
         | |- context [match ?x with _ => _ end] => destruct x
         end; tell.
Qed.

Lemma says_analyze w : says w (analyze w).
Proof.
  unfold analyze. cbv zeta. open_pair.
  destruct (analyser (obj w)), (frequencyData (obj w)); tell.
Qed.

Lemma says_frame w : says w (frame w).
Proof.
  unfold frame. apply (says_trans w (set_frames [] w)); [tell|].
  generalize (set_frames [] w) as v. generalize (frames (host w)) as fs.
  induction fs as [|f fs IH]; intros v; cbn [fold_left]; [apply says_refl|].
  eapply says_trans; [apply says_analyze | apply IH].
Qed.

Lemma says_playRejected pid w : says w (playRejected pid w).
Proof. unfold playRejected. destruct (find _ _); cbv zeta; tell. Qed.

(** The [timeupdate] listener: the snapshot, then the time it carries. *)
Lemma says_timeupdate t w :
  says w (introListener (IntroTimeUpdate t) w).
Proof.
  cbn [introListener]. cbv zeta.
  apply (says_trans w (on_intro (el_set_currentTime t) w)); [tell|].
  destruct (introAudio (obj (on_intro (el_set_currentTime t) w))) as [a|];
    [|apply says_refl].
  eexists [_; _]. split.
  - unfold invoke, updateState. world. rewrite <- app_assoc. reflexivity.
  - unfold updateState. world.
    exact (wr_time (merge (state (obj w))
                      (with_currentTime (el_currentTime a) no_updates)) [] wr_nil).
Qed.

Lemma says_introListener e w : says w (introListener e w).
Proof.
  destruct e; try apply says_timeupdate; cbn [introListener]; cbv zeta;
    try match goal with
        | |- context [match ?x with _ => _ end] => destruct x
        end; tell.
Qed.

Lemma says_liveListener e w : says w (liveListener e w).
Proof.
  destruct e; cbn [liveListener]; try destruct (Status_eqb _ _); tell.
Qed.

Lemma says_run_task t w : says w (run_task t w).
Proof.
  destruct t; cbn [run_task]; try destruct (Status_eqb _ _); tell.
Qed.

Lemma says_tick w : says w (tick w).
Proof.
  unfold tick. destruct (earliest _) as [t|]; [|apply says_refl].
  eapply says_trans; [|apply says_run_task]. tell.
Qed.

Lemma says_step e w : says w (step e w).
Proof.
  destruct e; cbn [step];
    auto using says_togglePlayPause, says_goLiveNow, says_setVolume, says_teardown,
      says_playRejected, says_tick, says_frame.
  - destruct (introListeners _); [apply says_introListener | apply says_refl].
  - destruct (liveListeners _); [apply says_liveListener | apply says_refl].
  - tell.
Qed.

Lemma says_setupIntroListeners w : says w (setupIntroListeners w).
Proof. unfold setupIntroListeners. destruct (introAudio _); tell. Qed.

Lemma says_setupLiveListeners w : says w (setupLiveListeners w).
Proof. unfold setupLiveListeners. destruct (liveAudio _); tell. Qed.

Lemma says_startFrequencyAnalysis w : says w (startFrequencyAnalysis w).
Proof. apply says_analyze. Qed.

#[local] Hint Resolve says_setupIntroListeners says_setupLiveListeners
  says_startFrequencyAnalysis : says.

Lemma says_init o w : says w (init o w).
Proof.
  unfold init, init_try. cbv zeta.
  repeat match goal with
         | |- context [if throws_at ?a ?b then _ else _] => destruct (throws_at a b)
         end; tell.
Qed.

Lemma well_reported_no_duration l :
  well_reported l -> forall d, ~ In (OnDurationChange d) l.
Proof.
  induction 1 as [|s r _ IH|n r _ IH|s r _ IH]; intros d H; cbn [In] in H.
  - exact H.
  - destruct H as [H | H]; [discriminate H | exact (IH d H)].
  - destruct H as [H | H]; [discriminate H | exact (IH d H)].
  - destruct H as [H | [H | H]]; [discriminate H | discriminate H | exact (IH d H)].
Qed.

Lemma well_reported_time l :
  well_reported l ->
  forall pre t post,
    l = pre ++ OnTimeUpdate t :: post ->
    exists pre' s, pre = pre' ++ [OnStateChange s] /\ currentTime s = t.
Proof.
  induction 1 as [|s r _ IH|n r _ IH|s r _ IH]; intros pre t post E.
  - destruct pre; discriminate E.
  - destruct pre as [|c pre]; [discriminate E|].
    injection E as <- E. destruct (IH _ _ _ E) as (pre' & s' & -> & T).
    exists (OnStateChange s :: pre'), s'. split; [reflexivity | exact T].
  - destruct pre as [|c pre]; [discriminate E|].
    injection E as <- E. destruct (IH _ _ _ E) as (pre' & s' & -> & T).
    exists (OnFrequencyData n :: pre'), s'. split; [reflexivity | exact T].
  - destruct pre as [|c [|c2 pre]]; [discriminate E | |].
    + injection E as <- <- _. exists [], s. split; reflexivity.
    + injection E as <- <- E. destruct (IH _ _ _ E) as (pre' & s' & -> & T).
      exists (OnStateChange s :: OnTimeUpdate (currentTime s) :: pre'), s'.
      split; [reflexivity | exact T].
Qed.

Lemma says_reachable w : reachable w -> says constructor w.
Proof.
  induction 1 as [o | e w _ IH].
  - apply says_init.
  - eapply says_trans; [exact IH | apply says_step].
Qed.

(** X8. The observer is only ever told three kinds of things: state
    snapshots, frequency samples, and time updates. [onDurationChange] is
    never invoked (the duration reaches the observer through the
    snapshot), and every [onTimeUpdate(t)] comes directly after the
    snapshot whose [currentTime] is [t]. *)
Theorem callbacks_are_well_reported :
  forall w : World,
    reachable w ->
    well_reported (trace (host w))
    /\ (forall d, ~ In (OnDurationChange d) (trace (host w)))
    /\ (forall pre t post,
          trace (host w) = pre ++ OnTimeUpdate t :: post ->
          exists pre' s, pre = pre' ++ [OnStateChange s] /\ currentTime s = t).
Proof.
  intros w R. destruct (says_reachable w R) as (l & E & W).
  cbn [app] in E. rewrite E.
  split; [exact W|]. split.
  - apply well_reported_no_duration. exact W.
  - apply well_reported_time. exact W.
Qed.

Lemma callbacks_are_well_reported_witness :
  well_reported (trace (host intro_playing_world))
  /\ In (OnTimeUpdate 3) (trace (host intro_playing_world)).
Proof.
  assert (R : reachable intro_playing_world)
    by (apply reachable_run; apply reach_init).
  split; [exact (proj1 (callbacks_are_well_reported intro_playing_world R))|].
  vm_compute. tauto.
Defined.

(** ** After a failed init *)

Lemma inert_init p : inert (init (Throws p) constructor).
Proof. destruct p; vm_compute; repeat split. Qed.

Lemma inert_step e w : inert w -> inert (step e w).
Proof.
  destruct w as [[[stt pl vol tm dur ra mx] ia la ac an fd af rt ct]
                   [il ll ck ts fs ps nh tr]].
  unfold inert. cbn [obj host st state liveAudio introListeners liveListeners timers
                     frames promises status reconnectAttempts].
  intros (-> & -> & -> & -> & -> & -> & -> & ->).
  destruct e; cbn [step introListeners liveListeners host].
  - cbv. repeat split; reflexivity.
  - cbv. repeat split; reflexivity.
  - cbv. repeat split; reflexivity.
  - rewrite teardown_world. cbv. repeat split; reflexivity.
  - repeat split; reflexivity.
  - repeat split; reflexivity.
  - cbv. repeat split; reflexivity.
  - cbv. repeat split; reflexivity.
  - cbv. repeat split; reflexivity.
  - cbv - [Z.add Z.max]. repeat split; reflexivity.
Qed.

(** X9. When [init] fails, at whichever point, the controller is inert for
    good: whatever intents and events follow, the status stays
    LIVE_UNAVAILABLE, no timer, animation frame or play request is ever
    pending, and the counter stays 0. In particular no go-live or
    reconnect intent can bring the session back; only a new controller
    can. *)
Theorem failed_init_is_final :
  forall (p : InitPoint) (es : list Event),
    let w := run es (init (Throws p) constructor) in
    status (st w) = LIVE_UNAVAILABLE
    /\ reconnectAttempts (st w) = 0
    /\ liveAudio (obj w) = None
    /\ timers (host w) = []
    /\ frames (host w) = []
    /\ promises (host w) = [].
Proof.
  intros p es. cbv zeta.
  assert (N : inert (run es (init (Throws p) constructor))).
  { generalize (inert_init p). generalize (init (Throws p) constructor) as w.
    unfold run. induction es as [|e es IH]; intros w N; cbn [fold_left].
    - exact N.
    - apply IH. apply inert_step. exact N. }
  destruct N as (A & _ & _ & B & C & D & E & F). repeat split; assumption.
Qed.

(** ** The frequency feed *)

Lemma samples_app tr1 tr2 : samples (tr1 ++ tr2) = samples tr1 ++ samples tr2.
Proof.
  induction tr1 as [|c tr1 IH]; [reflexivity|].
  destruct c; cbn; rewrite IH; reflexivity.
Qed.

Lemma feed_refl w : feed_same w w.
Proof. reflexivity. Qed.

Lemma feed_trans w1 w2 w3 : feed_same w1 w2 -> feed_same w2 w3 -> feed_same w1 w3.
Proof. unfold feed_same. congruence. Qed.

Lemma feed_updateState u w : feed_same w (updateState u w).
Proof.
  unfold feed_same, feed, updateState. world. rewrite samples_app, app_nil_r.
  reflexivity.
Qed.

Lemma feed_invoke_time t w : feed_same w (invoke (OnTimeUpdate t) w).
Proof.
  unfold feed_same, feed. world. rewrite samples_app, app_nil_r. reflexivity.
Qed.

Create HintDb feed discriminated.
#[local] Hint Resolve feed_updateState feed_invoke_time : feed.

Ltac feed_step :=
  match goal with
  | |- feed_same ?x _ =>
      let y := fresh "y" in
      generalize x; intro y;
      first [ solve [auto with feed nocore] | solve [reflexivity] ]
  end.

Ltac feeding :=
  repeat match goal with
         | |- feed_same ?w (snd (setTimeout ?t ?d ?x)) =>
             apply (feed_trans w x); [| feed_step]
         | |- feed_same ?w (?f ?x) =>
             apply (feed_trans w x); [| feed_step]
         end;
  try apply feed_refl.

Lemma feed_connectAudioSource s w : feed_same w (connectAudioSource s w).
Proof.
  unfold connectAudioSource.
  destruct (audioContext (obj w)) eqn:C, (analyser (obj w)) eqn:A; try apply feed_refl.
  destruct (_ && _); [|apply feed_refl].
  unfold feed_same, feed. world. rewrite A. reflexivity.
Qed.
#[local] Hint Resolve feed_connectAudioSource : feed.

Lemma feed_crossfade k w : feed_same w (crossfade k w).
Proof.
  unfold crossfade.
  destruct (introAudio (obj w)), (liveAudio (obj w)); try apply feed_refl.
  cbv zeta. destruct (_ <=? _)%nat; [open_pair|]; feeding.
Qed.
#[local] Hint Resolve feed_crossfade : feed.

Lemma feed_startCrossfade w : feed_same w (startCrossfade w).
Proof.
  unfold startCrossfade.
  destruct (introAudio (obj w)), (liveAudio (obj w)); try apply feed_refl.
  eapply feed_trans; [|apply feed_crossfade].
  destruct (crossfadeTimeout (obj w)); feeding.
Qed.

Lemma feed_handleLiveError w : feed_same w (handleLiveError w).
Proof.
  unfold handleLiveError. cbv zeta.
  destruct (_ >=? _); [|open_pair]; feeding.
Qed.

Lemma feed_tryStreamUrls urls i w : feed_same w (tryStreamUrls urls i w).
Proof.
  unfold tryStreamUrls.
  destruct (liveAudio (obj w)); [|apply feed_handleLiveError].
  destruct (nth_error urls i); [|apply feed_handleLiveError].
  cbv zeta. feeding.
Qed.

Lemma feed_goLiveNow w : feed_same w (goLiveNow w).
Proof.
  unfold goLiveNow.
  destruct (liveAudio (obj w)); [|apply feed_refl].
  cbv zeta. eapply feed_trans; [|apply feed_tryStreamUrls].
  destruct (reconnectTimeout (obj w)); feeding.
Qed.
#[local] Hint Resolve feed_startCrossfade feed_handleLiveError feed_tryStreamUrls
  feed_goLiveNow : feed.

Lemma feed_step_other e w :
  is_teardown e = false -> is_frame e = false -> feed_same w (step e w).
Proof.
  intros T F. destruct e; try discriminate T; try discriminate F; cbn [step].
  - unfold togglePlayPause. destruct (status (st w)), (isPlaying (st w)); feeding.
  - apply feed_goLiveNow.
  - unfold setVolume. cbv zeta. feeding.
  - destruct (introListeners _); [|apply feed_refl].
    destruct e; cbn [introListener]; cbv zeta;
      try match goal with
          | |- context [match ?x with _ => _ end] => destruct x
          end; feeding.
  - destruct (liveListeners _); [|apply feed_refl].
    destruct e; cbn [liveListener]; try destruct (Status_eqb _ _); feeding.
  - unfold playRejected. destruct (find _ _); cbv zeta; feeding.
  - unfold tick. destruct (earliest _) as [t|]; [|apply feed_refl].
    destruct (task t); cbn [run_task]; try destruct (Status_eqb _ _); feeding.
  - feeding.
Qed.

Lemma feed_alive_same w w' : feed_same w w' -> feed_alive w -> feed_alive w'.
Proof.
  unfold feed_same, feed, feed_alive. intros E (A & D & id & F & H).
  injection E as E1 E2 E3 E4 _. rewrite E1, E2, E3, E4.
  split; [exact A|]. split; [exact D|]. exists id. split; assumption.
Qed.

Lemma frame_alive w :
  feed_alive w ->
  trace (host (frame w)) = trace (host w) ++ [OnFrequencyData 128]
  /\ feed_alive (frame w).
Proof.
  destruct w as [[s ia la ac an fd af rt ct] [il ll ck ts fs ps nh tr]].
  unfold feed_alive. cbn [obj host analyser frequencyData frames animationFrame].
  intros (A & -> & id & -> & ->). destruct an as [an|]; [|discriminate A].
  unfold frame, analyze. cbv - [app]. split; [reflexivity|].
  split; [reflexivity|]. split; [reflexivity|]. eexists. split; reflexivity.
Qed.

Lemma frame_stopped w : frames (host w) = [] -> frame w = w.
Proof.
  destruct w as [[s ia la ac an fd af rt ct] [il ll ck ts fs ps nh tr]].
  cbn [host frames]. intros ->. reflexivity.
Qed.

Lemma teardown_stops_feed w :
  feed_alive w ->
  frames (host (teardown w)) = [] /\ trace (host (teardown w)) = trace (host w).
Proof.
  destruct w as [[s ia la ac an fd af rt ct] [il ll ck ts fs ps nh tr]].
  unfold feed_alive. cbn [obj host analyser frequencyData frames animationFrame].
  intros (_ & _ & id & -> & ->). rewrite teardown_world.
  cbn [host frames trace held]. unfold without_frames. cbn [filter existsb].
  rewrite Nat.eqb_refl. split; reflexivity.
Qed.

Lemma stopped_step e w :
  frames (host w) = [] ->
  frames (host (step e w)) = []
  /\ samples (trace (host (step e w))) = samples (trace (host w)).
Proof.
  intros F. destruct (is_teardown e) eqn:T; [|destruct (is_frame e) eqn:Fr].
  - destruct e; try discriminate T. cbn [step].
    destruct w as [[s ia la ac an fd af rt ct] [il ll ck ts fs ps nh tr]].
    cbn [host frames] in F. subst fs. rewrite teardown_world.
    cbn [host frames trace]. split; reflexivity.
  - destruct e; try discriminate Fr. cbn [step].
    rewrite (frame_stopped w F). split; [exact F | reflexivity].
  - pose proof (feed_step_other e w T Fr) as E. unfold feed_same, feed in E.
    injection E as E1 _ _ _ E5. rewrite E1, E5. split; [exact F | reflexivity].
Qed.

Lemma feed_alive_run es :
  no_teardown es = true -> forall w, feed_alive w -> feed_alive (run es w).
Proof.
  unfold run, no_teardown.
  induction es as [|e es IH]; intros N w A; cbn [fold_left forallb] in *.
  - exact A.
  - apply andb_true_iff in N. destruct N as [N1 N2]. apply IH; [exact N2|].
    destruct (is_frame e) eqn:Fr.
    + destruct e; try discriminate Fr. cbn [step]. apply frame_alive. exact A.
    + apply (feed_alive_same w); [|exact A]. apply feed_step_other; [|exact Fr].
      destruct (is_teardown e); [discriminate N1 | reflexivity].
Qed.

(** X10. From a successful [init] until [teardown], the analysis loop is
    alive whatever else happens: exactly one animation frame is requested,
    the one whose handle the object holds, and each frame delivers exactly
    one frequency sample of 128 bins and requests the next frame. No other
    event delivers a sample. After [teardown] the loop is gone for good: no
    sequence of events makes the controller deliver another sample. *)
Theorem frequency_feed_runs_until_teardown :
  forall es : list Event,
    no_teardown es = true ->
    let w := run es (init InitOk constructor) in
    feed_alive w
    /\ trace (host (step Frame w)) = trace (host w) ++ [OnFrequencyData 128]
    /\ (forall e, is_frame e = false ->
          samples (trace (host (step e w))) = samples (trace (host w)))
    /\ (forall es',
          samples (trace (host (run es' (step Teardown w)))) = samples (trace (host w))).
Proof.
  intros es N. cbv zeta.
  assert (A : feed_alive (run es (init InitOk constructor))).
  { apply feed_alive_run; [exact N|]. vm_compute.
    split; [reflexivity|]. split; [reflexivity|]. eexists. split; reflexivity. }
  set (w := run es (init InitOk constructor)) in *.
  split; [exact A|]. split; [apply frame_alive; exact A|]. split.
  - intros e Fr. destruct (is_teardown e) eqn:T.
    + destruct e; try discriminate T. cbn [step].
      rewrite (proj2 (teardown_stops_feed w A)). reflexivity.
    + pose proof (feed_step_other e w T Fr) as E. unfold feed_same, feed in E.
      injection E as _ _ _ _ E5. exact E5.
  - intros es'. cbn [step]. destruct (teardown_stops_feed w A) as [F T].
    rewrite <- T. generalize F. generalize (teardown w) as v.
    unfold run. induction es' as [|e es' IH]; intros v Fv; cbn [fold_left].
    + reflexivity.
    + destruct (stopped_step e v Fv) as [F1 S1]. rewrite (IH _ F1). exact S1.
Qed.

Lemma frequency_feed_witness :
  samples (trace (host (run [GoLiveNow; Frame; OnLive LiveCanPlay; Frame]
                          (init InitOk constructor))))
  = [128; 128; 128]%nat
  /\ feed_alive (run [GoLiveNow; Frame; OnLive LiveCanPlay; Frame]
                   (init InitOk constructor)).
Proof.
  split; [vm_compute; reflexivity|].
  exact (proj1 (frequency_feed_runs_until_teardown
                  [GoLiveNow; Frame; OnLive LiveCanPlay; Frame] eq_refl)).
Defined.

(** ** The fade timer *)

Lemma filter_comm {A} (f g : A -> bool) l :
  filter f (filter g l) = filter g (filter f l).
Proof.
  induction l as [|a l IH]; [reflexivity|].
  cbn [filter]. destruct (g a) eqn:G, (f a) eqn:F; cbn [filter];
    rewrite ?G, ?F, IH; reflexivity.
Qed.

Lemma filter_and {A} (f g : A -> bool) l :
  filter g (filter f l) = filter (fun x => f x && g x) l.
Proof.
  induction l as [|a l IH]; [reflexivity|].
  cbn [filter]. destruct (f a) eqn:F; cbn [filter andb]; rewrite ?IH; reflexivity.
Qed.

Lemma filter_all {A} (l : list A) : l = filter (fun _ => true) l.
Proof. induction l as [|a l IH]; [reflexivity|]. cbn [filter]. f_equal. exact IH. Qed.

Lemma calm_refl w : calm w w.
Proof. split; [reflexivity|]. exists (fun _ => true). apply filter_all. Qed.

Lemma calm_trans w1 w2 w3 : calm w1 w2 -> calm w2 w3 -> calm w1 w3.
Proof.
  intros [A (p & P)] [B (q & Q)]. split; [congruence|].
  exists (fun x => p x && q x). rewrite Q, P. apply filter_and.
Qed.

Lemma calm_setTimeout t d w :
  match t with CrossfadeTask _ => False | _ => True end ->
  calm w (snd (setTimeout t d w)).
Proof.
  intros T. split; [reflexivity|]. exists (fun _ => true).
  unfold fades. world. rewrite filter_app. cbn [filter is_fade task].
  destruct t; try destruct T; rewrite app_nil_r; apply filter_all.
Qed.

Lemma calm_clearTimeout id w : calm w (clearTimeout id w).
Proof.
  split; [reflexivity|]. exists (fun t => negb (Nat.eqb (timerId t) id)).
  unfold fades. world. apply filter_comm.
Qed.

Create HintDb calm discriminated.
#[local] Hint Resolve calm_clearTimeout : calm.
#[local] Hint Extern 1 (calm _ (snd (setTimeout _ _ _))) =>
  apply calm_setTimeout; exact I : calm.

Ltac calm_prim := split; [reflexivity | exists (fun _ => true); apply filter_all].

Ltac calm_step :=
  match goal with
  | |- calm ?x _ =>
      let y := fresh "y" in
      generalize x; intro y;
      first [ solve [auto with calm nocore] | solve [calm_prim] ]
  end.

Ltac calming :=
  repeat match goal with
         | |- calm ?w (snd (setTimeout ?t ?d ?x)) =>
             apply (calm_trans w x); [| calm_step]
         | |- calm ?w (snd (requestAnimationFrame ?x)) =>
             apply (calm_trans w x); [| calm_step]
         | |- calm ?w (?f ?x) =>
             apply (calm_trans w x); [| calm_step]
         end;
  try apply calm_refl.

Lemma calm_connectAudioSource s w : calm w (connectAudioSource s w).
Proof.
  unfold connectAudioSource.
  destruct (audioContext (obj w)), (analyser (obj w)); try apply calm_refl.
  destruct (_ && _); calming.
Qed.
#[local] Hint Resolve calm_connectAudioSource : calm.

Lemma calm_handleLiveError w : calm w (handleLiveError w).
Proof.
  unfold handleLiveError. cbv zeta.
  destruct (_ >=? _); [|open_pair]; calming.
Qed.

Lemma calm_tryStreamUrls urls i w : calm w (tryStreamUrls urls i w).
Proof.
  unfold tryStreamUrls.
  destruct (liveAudio (obj w)); [|apply calm_handleLiveError].
  destruct (nth_error urls i); [|apply calm_handleLiveError].
  cbv zeta. calming.
Qed.

Lemma calm_goLiveNow w : calm w (goLiveNow w).
Proof.
  unfold goLiveNow.
  destruct (liveAudio (obj w)); [|apply calm_refl].
  cbv zeta. eapply calm_trans; [|apply calm_tryStreamUrls].
  destruct (reconnectTimeout (obj w)); calming.
Qed.
#[local] Hint Resolve calm_handleLiveError calm_tryStreamUrls calm_goLiveNow : calm.

Lemma calm_analyze w : calm w (analyze w).
Proof.
  unfold analyze. cbv zeta. open_pair.
  destruct (analyser (obj w)), (frequencyData (obj w)); calming.
Qed.

Lemma calm_frame w : calm w (frame w).
Proof.
  unfold frame. apply (calm_trans w (set_frames [] w)); [calming|].
  generalize (set_frames [] w) as v. generalize (frames (host w)) as fs.
  induction fs as [|f fs IH]; intros v; cbn [fold_left]; [apply calm_refl|].
  eapply calm_trans; [apply calm_analyze | apply IH].
Qed.

Lemma calm_teardown w : calm w (teardown w).
Proof.
  unfold teardown. cbv zeta.
  repeat match goal with
         | |- context [match ?x with _ => _ end] => destruct x
         end; calming.
Qed.

Lemma held_calm w w' : calm w w' -> one_fade w -> one_fade w'.
Proof.
  intros [C (p & P)] [H N]. split.
  - intros t T. rewrite C. apply H. rewrite P in T.
    apply filter_In in T. exact (proj1 T).
  - rewrite P. eapply Nat.le_trans; [apply filter_length_le | exact N].
Qed.

Lemma fades_clear_held id w :
  fade_held w -> crossfadeTimeout (obj w) = Some id -> fades (clearTimeout id w) = [].
Proof.
  intros H C.
  assert (E : fades (clearTimeout id w)
              = filter (fun t => negb (Nat.eqb (timerId t) id)) (fades w)).
  { unfold fades. world. apply filter_comm. }
  rewrite E. clear E. unfold fade_held in H. revert H.
  induction (fades w) as [|t l IH]; intros H; [reflexivity|].
  cbn [filter].
  assert (T : timerId t = id).
  { specialize (H t (or_introl eq_refl)). rewrite C in H. injection H as H.
    symmetry. exact H. }
  rewrite T, Nat.eqb_refl. cbn [negb]. apply IH.
  intros t' T'. apply H. right. exact T'.
Qed.

Lemma fades_none_held w :
  fade_held w -> crossfadeTimeout (obj w) = None -> fades w = [].
Proof.
  intros H C. destruct (fades w) as [|t l] eqn:E; [reflexivity|].
  unfold fade_held in H. rewrite E in H.
  specialize (H t (or_introl eq_refl)). rewrite C in H. discriminate H.
Qed.

Lemma no_fade_one w : fades w = [] -> one_fade w.
Proof.
  intros F. unfold one_fade, fade_held. rewrite F. split; [intros t [] | cbn; lia].
Qed.

Lemma held_crossfade k w : fades w = [] -> one_fade (crossfade k w).
Proof.
  intros F. unfold crossfade.
  destruct (introAudio (obj w)), (liveAudio (obj w));
    try (apply no_fade_one; exact F).
  cbv zeta. destruct (_ <=? _)%nat.
  - unfold one_fade, fade_held, fades in *. world.
    rewrite filter_app, F. cbn [filter is_fade task app In List.length timerId].
    split; [intros t [<- | []]; reflexivity | lia].
  - apply no_fade_one. unfold fades in *. world. exact F.
Qed.

Lemma held_startCrossfade w : one_fade w -> one_fade (startCrossfade w).
Proof.
  intros [H N]. unfold startCrossfade.
  destruct (introAudio (obj w)), (liveAudio (obj w)); try (split; assumption).
  apply held_crossfade.
  destruct (crossfadeTimeout (obj w)) as [id|] eqn:C.
  - apply fades_clear_held; assumption.
  - apply fades_none_held; assumption.
Qed.

Lemma earliest_In ts t : earliest ts = Some t -> In t ts.
Proof.
  revert t. induction ts as [|a r IH]; intros t E; [discriminate E|].
  cbn [earliest] in E. destruct (earliest r) as [m|].
  - destruct (due m <? due a); injection E as <-;
      [right; apply IH; reflexivity | left; reflexivity].
  - injection E as <-. left. reflexivity.
Qed.

Lemma held_tick w : one_fade w -> one_fade (tick w).
Proof.
  intros O. unfold tick. destruct (earliest (timers (host w))) as [t|] eqn:E; [|exact O].
  set (w0 := set_clock (Z.max (clock (host w)) (due t)) (clearTimeout (timerId t) w)).
  assert (C0 : calm w w0) by (subst w0; calming).
  pose proof (held_calm w w0 C0 O) as O0.
  destruct (task t) eqn:T; cbn [run_task].
  - apply (held_calm w0); [apply calm_goLiveNow | exact O0].
  - apply held_crossfade.
    assert (F : In t (fades w)).
    { unfold fades. apply filter_In. split; [apply earliest_In; exact E|].
      unfold is_fade. rewrite T. reflexivity. }
    pose proof (proj1 O t F) as H.
    assert (E0 : fades w0 = fades (clearTimeout (timerId t) w))
      by (subst w0; reflexivity).
    rewrite E0. apply fades_clear_held; [exact (proj1 O) | exact H].
  - apply (held_calm w0); [apply calm_tryStreamUrls | exact O0].
  - destruct (Status_eqb _ _); [|exact O0].
    apply (held_calm w0); [apply calm_tryStreamUrls | exact O0].
Qed.

Lemma held_step e w : one_fade w -> one_fade (step e w).
Proof.
  intros O. destruct e; cbn [step].
  - apply (held_calm w); [|exact O]. unfold togglePlayPause.
    destruct (status (st w)), (isPlaying (st w)); calming.
  - apply (held_calm w); [apply calm_goLiveNow | exact O].
  - apply (held_calm w); [|exact O]. unfold setVolume. cbv zeta. calming.
  - apply (held_calm w); [apply calm_teardown | exact O].
  - destruct (introListeners _); [|exact O].
    apply (held_calm w); [|exact O].
    destruct e; cbn [introListener]; cbv zeta;
      try match goal with
          | |- context [match ?x with _ => _ end] => destruct x
          end; calming.
  - destruct (liveListeners _); [|exact O].
    destruct e; cbn [liveListener]; try destruct (Status_eqb _ _);
      try exact O;
      try solve [apply (held_calm w); [calming | exact O]].
    apply held_startCrossfade. apply (held_calm w); [calming | exact O].
  - apply (held_calm w); [|exact O].
    unfold playRejected. destruct (find _ _); cbv zeta; calming.
  - apply held_tick. exact O.
  - apply (held_calm w); [apply calm_frame | exact O].
  - apply (held_calm w); [calming | exact O].
Qed.

Lemma held_init o : one_fade (init o constructor).
Proof. apply no_fade_one. destruct o as [|[]]; vm_compute; reflexivity. Qed.

(** X11. The fade is the one kind of timer the controller never loses
    track of: in every reachable state at most one fade step is pending,
    and it is the one whose handle the object holds. So [teardown] always
    stops a running fade, and a new [startCrossfade] replaces the running
    fade instead of running beside it. *)
Theorem fade_timer_is_always_held :
  forall w : World,
    reachable w ->
    (List.length (fades w) <= 1)%nat
    /\ (forall t, In t (fades w) -> crossfadeTimeout (obj w) = Some (timerId t))
    /\ fades (step Teardown w) = []
    /\ (List.length (fades (startCrossfade w)) <= 1)%nat.
Proof.
  intros w R.
  assert (O : one_fade w).
  { induction R as [o | e w _ IH]; [apply held_init | apply held_step; exact IH]. }
  destruct O as [H N]. split; [exact N|]. split; [exact H|]. split.
  - cbn [step].
    destruct w as [[s ia la ac an fd af rt ct] [il ll ck ts fs ps nh tr]].
    rewrite teardown_world.
    destruct ct as [c|].
    + pose proof (fades_clear_held c _ H eq_refl) as F.
      unfold fades in *. cbn [host timers] in *.
      revert F. unfold clearTimeout. world. intros F.
      unfold without_handles. rewrite filter_comm.
      rewrite filter_comm in F.
      revert F. generalize (filter is_fade ts) as l. intros l F.
      induction l as [|t l IH]; [reflexivity|].
      cbn [filter] in *. rewrite existsb_app. cbn [held existsb].
      destruct (Nat.eqb (timerId t) c) eqn:E; cbn [negb] in F; [|discriminate F].
      rewrite orb_true_l, orb_true_r. cbn [negb]. apply IH. exact F.
    + pose proof (fades_none_held _ H eq_refl) as F.
      unfold fades in *. cbn [host timers] in *.
      unfold without_handles. rewrite filter_comm, F. reflexivity.
  - apply held_startCrossfade. split; assumption.
Qed.

Lemma fade_timer_is_always_held_witness :
  List.length (fades mid_fade_world) = 1%nat
  /\ fades (step Teardown mid_fade_world) = [].
Proof.
  assert (R : reachable mid_fade_world)
    by (apply reachable_run; apply reach_init).
  destruct (fade_timer_is_always_held mid_fade_world R) as (_ & _ & T & _).
  split; [vm_compute; reflexivity | exact T].
Defined.

(** ** Which events move which fields *)

Lemma measures_refl w : measures_same w w.
Proof. reflexivity. Qed.

Lemma measures_trans w1 w2 w3 :
  measures_same w1 w2 -> measures_same w2 w3 -> measures_same w1 w3.
Proof. unfold measures_same. congruence. Qed.

Lemma measures_updateState u w :
  u_volume u = None -> u_currentTime u = None -> u_duration u = None ->
  u_maxReconnectAttempts u = None ->
  measures_same w (updateState u w).
Proof.
  intros A B C D. unfold measures_same, measures, updateState. world.
  cbn [merge volume currentTime duration maxReconnectAttempts].
  rewrite A, B, C, D. reflexivity.
Qed.

Create HintDb measures discriminated.

Ltac measures_step :=
  match goal with
  | |- measures_same ?x _ =>
      let y := fresh "y" in
      generalize x; intro y;
      first [ solve [auto with measures nocore]
            | solve [apply measures_updateState; reflexivity]
            | solve [reflexivity] ]
  end.

Ltac measuring :=
  repeat match goal with
         | |- measures_same ?w (snd (setTimeout ?t ?d ?x)) =>
             apply (measures_trans w x); [| measures_step]
         | |- measures_same ?w (?f ?x) =>
             apply (measures_trans w x); [| measures_step]
         end;
  try apply measures_refl.

Lemma measures_silent w w' : silent w w' -> measures_same w w'.
Proof. intros [S _]. unfold measures_same, measures. rewrite S. reflexivity. Qed.

Lemma measures_handleLiveError w : measures_same w (handleLiveError w).
Proof.
  unfold handleLiveError. cbv zeta.
  destruct (_ >=? _); [|open_pair]; measuring.
Qed.

Lemma measures_tryStreamUrls urls i w : measures_same w (tryStreamUrls urls i w).
Proof.
  destruct (tryStreamUrls_silent_or_fails urls i w) as [S | E].
  - apply measures_silent. exact S.
  - rewrite E. apply measures_handleLiveError.
Qed.

Lemma measures_goLiveNow w : measures_same w (goLiveNow w).
Proof.
  unfold goLiveNow.
  destruct (liveAudio (obj w)); [|apply measures_refl].
  cbv zeta. eapply measures_trans; [|apply measures_tryStreamUrls].
  destruct (reconnectTimeout (obj w)); measuring.
Qed.
#[local] Hint Resolve measures_handleLiveError measures_tryStreamUrls
  measures_goLiveNow : measures.

Lemma measures_step_other (e : Event) (w : World) :
  is_setVolume e = false -> is_timeupdate e = false ->
  is_loadedmetadata e = false -> measures_same w (step e w).
Proof.
  intros A B C. destruct e; try discriminate A; cbn [step].
  - apply measures_silent, silent_togglePlayPause.
  - apply measures_goLiveNow.
  - apply measures_silent, silent_teardown.
  - destruct (introListeners _); [|apply measures_refl].
    destruct e; try discriminate B; try discriminate C; cbn [introListener];
      measuring.
  - destruct (liveListeners _); [|apply measures_refl].
    destruct e; cbn [liveListener]; try destruct (Status_eqb _ _);
      try apply measures_refl; try apply measures_handleLiveError.
    + eapply measures_trans; [|apply measures_silent, silent_startCrossfade].
      measuring.
    + measuring.
    + measuring.
  - apply measures_silent, silent_playRejected.
  - unfold tick. destruct (earliest _) as [t|]; [|apply measures_refl].
    destruct (task t); cbn [run_task]; try destruct (Status_eqb _ _);
      try (eapply measures_trans; [|apply measures_silent, silent_crossfade]);
      measuring.
  - apply measures_silent, silent_frame.
  - measuring.
Qed.

Lemma measures_fields (e : Event) (w : World) :
  is_setVolume e = false -> is_timeupdate e = false ->
  is_loadedmetadata e = false ->
  (is_setVolume e = false -> volume (st (step e w)) = volume (st w))
  /\ (is_timeupdate e = false -> currentTime (st (step e w)) = currentTime (st w))
  /\ (is_loadedmetadata e = false -> duration (st (step e w)) = duration (st w))
  /\ maxReconnectAttempts (st (step e w)) = maxReconnectAttempts (st w).
Proof.
  intros A B C. pose proof (measures_step_other e w A B C) as G.
  unfold measures_same, measures in G.
  repeat split; intros.
  - exact (f_equal (fun p => fst (fst (fst p))) G).
  - exact (f_equal (fun p => snd (fst (fst p))) G).
  - exact (f_equal (fun p => snd (fst p)) G).
  - exact (f_equal snd G).
Qed.

(** X12. Each of these fields of the session record has one source: the
    [volume] changes only by a [setVolume] intent, [currentTime] only by a
    [timeupdate] of the intro element, [duration] only by its
    [loadedmetadata], and [maxReconnectAttempts] never. Connecting,
    failing, reconnecting, fading and tearing down leave all four alone. *)
Theorem record_fields_have_one_source :
  forall (e : Event) (w : World),
    (is_setVolume e = false -> volume (st (step e w)) = volume (st w))
    /\ (is_timeupdate e = false -> currentTime (st (step e w)) = currentTime (st w))
    /\ (is_loadedmetadata e = false -> duration (st (step e w)) = duration (st w))
    /\ maxReconnectAttempts (st (step e w)) = maxReconnectAttempts (st w).
Proof.
  intros e w.
  destruct e as [| |v| |ie|le|pid| | |ms];
    try solve [apply measures_fields; reflexivity].
  - (* setVolume *)
    cbn [step]. unfold setVolume, updateState. world.
    repeat split; intros; try discriminate; reflexivity.
  - (* intro events *)
    destruct ie;
      try solve [apply measures_fields; reflexivity];
      cbn [step]; destruct (introListeners (host w));
      try (repeat split; intros; reflexivity);
      cbn [introListener]; cbv zeta;
      match goal with
      | |- context [match ?x with Some _ => _ | None => _ end] => destruct x
      end; unfold updateState; world;
      repeat split; intros; try discriminate; reflexivity.
Qed.

Lemma record_fields_witness :
  volume (st (step (OnLive LiveStalled) on_air_world)) = volume (st on_air_world)
  /\ currentTime (st (step GoLiveNow intro_playing_world)) = 3%Q.
Proof.
  split.
  - exact (proj1 (record_fields_have_one_source (OnLive LiveStalled) on_air_world)
             eq_refl).
  - rewrite (proj1 (proj2 (record_fields_have_one_source GoLiveNow intro_playing_world))
               eq_refl).
    vm_compute. reflexivity.
Defined.

(** ** The controls of the component *)





Lemma step_times_index (n index : Z) :
  0 < n -> 0 <= index < SplashScreen.bands -> 0 <= index * (n / SplashScreen.bands) < n.
Proof.
  unfold SplashScreen.bands. intros N I.
  assert (D : 0 <= n / 10) by (apply Z.div_pos; lia).
  assert (M : 10 * (n / 10) <= n) by (apply Z.mul_div_le; lia).
  split; [nia|].
  destruct (Z.eq_dec (n / 10) 0) as [Z0|NZ]; [rewrite Z0; lia|nia].
Qed.

(** X14. The equalizer never reads past the end of the frequency data:
    for non-empty data and each of its ten bars, the sample index
    [index * step] lies inside the array, so the fallback [|| 0] only ever
    replaces a sample that is 0 already; and for byte samples the bar's
    target scale lies between 0.5 and 2.5. *)
Theorem equalizer_reads_in_bounds :
  forall (frequencyData : list Z) (index : Z),
    frequencyData <> [] ->
    Forall is_byte frequencyData ->
    0 <= index < SplashScreen.bands ->
    0 <= index * SplashScreen.step frequencyData < Z.of_nat (List.length frequencyData)
    /\ nth_error frequencyData (Z.to_nat (index * SplashScreen.step frequencyData))
       = Some (SplashScreen.frequency frequencyData index)
    /\ is_byte (SplashScreen.frequency frequencyData index)
    /\ (1 # 2 <= SplashScreen.targetScale frequencyData index)%Q
    /\ (SplashScreen.targetScale frequencyData index <= 5 # 2)%Q.
Proof.
  intros fd index NE B I.
  assert (N : 0 < Z.of_nat (List.length fd)).
  { destruct fd; [contradiction|]. cbn [List.length]. lia. }
  pose proof (step_times_index _ index N I) as R.
  fold (SplashScreen.step fd) in R.
  assert (T : (Z.to_nat (index * SplashScreen.step fd) < List.length fd)%nat) by lia.
  assert (E : nth_error fd (Z.to_nat (index * SplashScreen.step fd))
              = Some (SplashScreen.frequency fd index)).
  { unfold SplashScreen.frequency. apply nth_error_nth'. exact T. }
  assert (Y : is_byte (SplashScreen.frequency fd index)).
  { rewrite Forall_forall in B. apply B. eapply nth_error_In. exact E. }
  split; [exact R|]. split; [exact E|]. split; [exact Y|].
  unfold SplashScreen.targetScale, SplashScreen.normalizedFreq.
  destruct Y as [Y0 Y1].
  generalize dependent (SplashScreen.frequency fd index). intros b _ Y0 Y1.
  unfold Qle, Qplus, Qmult, Qdiv, Qinv, inject_Z. cbn - [Z.mul Z.add]. split; lia.
Qed.

Lemma equalizer_reads_witness :
  SplashScreen.step (repeat 200 128) = 12
  /\ nth_error (repeat 200 128) (Z.to_nat (9 * SplashScreen.step (repeat 200 128)))
     = Some (SplashScreen.frequency (repeat 200 128) 9).
Proof.
  split; [vm_compute; reflexivity|].
  refine (proj1 (proj2 (equalizer_reads_in_bounds (repeat 200 128) 9 _ _ _))).
  - discriminate.
  - apply Forall_forall. intros x H. apply repeat_spec in H. subst x.
    unfold is_byte. lia.
  - unfold SplashScreen.bands. lia.
Defined.
